(** * WeekendWish: the itinerary planner of [planner.py]

    A shallow embedding of [planner.py] and the properties of it that the
    design document states.

    Conventions of the embedding.
    - A place is a Python [dict] with string keys: a [gmap string value].
    - Python values are the sum type [value].  Python [int]s are [Z].
      Python [float]s are idealised as exact rationals [Q]: rounding of
      binary64 arithmetic is not modelled, and neither are [nan] and [inf].
    - A Python exception is the [Raise] branch of [result].
    - [geopy.distance.geodesic] is a third-party function: it is a section
      variable that takes four Python values and may raise. *)

From Stdlib Require Import QArith Qabs Qminmax ZArith List String Ascii Lia Lqa Permutation Sorted.
From stdpp Require Import base option gmap strings list.

Set Default Proof Using "Type".
Open Scope Q_scope.

(** ** Python values, exceptions *)

Inductive exn : Type :=
| KeyError (k : string)
| TypeError
| AttributeError
| ZeroDivisionError
| GeopyError.

Inductive result (A : Type) : Type :=
| Ok (a : A)
| Raise (e : exn).
Arguments Ok {A} a.
Arguments Raise {A} e.

#[global] Instance result_ret : MRet result := fun A a => Ok a.
#[global] Instance result_bind : MBind result := fun A B f m =>
  match m with
  | Ok a => f a
  | Raise e => Raise e
  end.

#[warnings="-register-all"] Inductive value : Type :=
| VNone
| VInt (n : Z)
| VFloat (x : Q)
| VStr (s : string)
| VList (l : list value).

(** A place record, as the caller hands it over: a [dict]. *)
Abbreviation place := (gmap string value).

(** [d[k]] *)
Definition getitem (d : place) (k : string) : result value :=
  match d !! k with
  | Some v => Ok v
  | None => Raise (KeyError k)
  end.

(** [d.get(k, dflt)] *)
Definition get (d : place) (k : string) (dflt : value) : value :=
  match d !! k with
  | Some v => v
  | None => dflt
  end.

(** A value used as an operand of float arithmetic or of a comparison with
    a number: anything but an [int] or a [float] raises [TypeError]. *)
Definition as_number (v : value) : result Q :=
  match v with
  | VInt n => Ok (inject_Z n)
  | VFloat x => Ok x
  | _ => Raise TypeError
  end.

(** [a > b] on numbers. *)
Definition py_gt (a b : Q) : bool := negb (Qle_bool a b).

(** [a < b] on numbers. *)
Definition py_lt (a b : Q) : bool := negb (Qle_bool b a).

(** [max(a, b)]: the first argument unless the second is strictly greater. *)
Definition py_max (a b : Q) : Q := if py_gt b a then b else a.

(** ** Strings: [str.lower] and [kw in s] *)

(** [str.lower] on ASCII text: the letters [A]-[Z] move to [a]-[z], every
    other character stays. *)
Definition lower_ascii (c : ascii) : ascii :=
  let n := N_of_ascii c in
  if ((65 <=? n) && (n <=? 90))%N then ascii_of_N (n + 32) else c.

Fixpoint lower (s : string) : string :=
  match s with
  | EmptyString => EmptyString
  | String c s' => String (lower_ascii c) (lower s')
  end.

Fixpoint starts_with (kw s : string) : bool :=
  match kw with
  | EmptyString => true
  | String a kw' =>
      match s with
      | EmptyString => false
      | String b s' => if Ascii.eqb a b then starts_with kw' s' else false
      end
  end.

(** [kw in s]: [kw] occurs in [s] as a contiguous substring. *)
Fixpoint py_in (kw s : string) : bool :=
  starts_with kw s ||
  match s with
  | EmptyString => false
  | String _ s' => py_in kw s'
  end.

(** The characters of a string, as [for c in s] yields them. *)
Fixpoint chars (s : string) : list string :=
  match s with
  | EmptyString => []
  | String c s' => String c EmptyString :: chars s'
  end.

(** ** [list.sort(key=..., reverse=...)]

    CPython computes the keys first, reverses the list when [reverse] is
    set, sorts it ascending and stably with [<] alone, and reverses the
    outcome again.  The ascending pass is written as the insertion sort
    that CPython runs on short lists: every element goes behind the
    elements that are not greater than it.  Its merge passes on long lists
    are stable too and end in the same list. *)

Section ListSort.
Context {A : Type}.

Fixpoint insert_ascending (kx : Q * A) (l : list (Q * A)) : list (Q * A) :=
  match l with
  | [] => [kx]
  | ky :: l' =>
      if py_lt (fst kx) (fst ky) then kx :: ky :: l'
      else ky :: insert_ascending kx l'
  end.

Definition sort_ascending (l : list (Q * A)) : list (Q * A) :=
  fold_left (fun acc kx => insert_ascending kx acc) l [].

Definition list_sort (key : A -> result Q) (reverse : bool) (l : list A)
  : result (list A) :=
  keys ← mapM key l;
  let decorated := combine keys l in
  let sorted :=
    if reverse then rev (sort_ascending (rev decorated))
    else sort_ascending decorated in
  Ok (map snd sorted).
End ListSort.

(** ** The output of the planner *)

(** One entry of the itinerary: the [dict] literal of the acceptance branch,
    whose keys are fixed. *)
Record Stop : Type := mkStop {
  name : value;
  categories : value;
  photo_url : value;
  cost : Q;
  travel_time : Q;
  duration : Z;
  lat : value;
  lon : value
}.

(** The local variables of the acceptance loop. *)
Record loop_state : Type := mkState {
  itinerary : list Stop;
  remaining_budget : Q;
  current_lat : value;
  current_lon : value;
  total_minutes_used : Q
}.

Definition MAX_MINUTES : Q := 8 * 60.

Definition default_speed : Q := 20.

(** [for x in xs: st = body(st, x)] with exceptions. *)
Fixpoint for_each {S A : Type} (body : S -> A -> result S) (st : S) (xs : list A)
  : result S :=
  match xs with
  | [] => Ok st
  | x :: xs' => st' ← body st x; for_each body st' xs'
  end.

(** ** [planner.py] *)

Section Planner.
(** [geodesic((lat1, lon1), (lat2, lon2)).km] of geopy. *)
Variable geodesic_km : value -> value -> value -> value -> result Q.

Definition distance_km (lat1 lon1 lat2 lon2 : value) : result Q :=
  geodesic_km lat1 lon1 lat2 lon2.

Definition travel_time_min (lat1 lon1 lat2 lon2 : value) (speed : Q) : result Q :=
  dist ← distance_km lat1 lon1 lat2 lon2;
  if Qeq_bool speed 0 then Raise ZeroDivisionError
  else Ok ((dist / speed) * 60).

(** The literal [{1: 200, 2: 400, 3: 800, 4: 1200}]. *)
Definition cost_table : list (Z * Z) :=
  [(1, 200); (2, 400); (3, 800); (4, 1200)]%Z.

(** Lookup of a number in a [dict] with integer keys: a key is found when
    it is numerically equal, so [1.0] finds the key [1]. *)
Definition table_get (table : list (Z * Z)) (x : Q) (dflt : Z) : Z :=
  match find (fun kv => Qeq_bool x (inject_Z (fst kv))) table with
  | Some kv => snd kv
  | None => dflt
  end.

(** [cost_table.get(price_tier, 400)]: a list is not hashable, and
    [None] and strings are keys that the table does not have. *)
Definition approx_cost_of (price_tier : value) : result Z :=
  match price_tier with
  | VList _ => Raise TypeError
  | VInt n => Ok (table_get cost_table (inject_Z n) 400%Z)
  | VFloat x => Ok (table_get cost_table x 400%Z)
  | VNone | VStr _ => Ok 400%Z
  end.

Definition compute_score (p : place) (budget_per_person travel_min : Q)
  : result (Q * Z) :=
  let popularity := get p "popularity" (VFloat 0.6) in
  let price_tier := get p "price_tier" (VInt 2) in
  approx_cost ← approx_cost_of price_tier;
  let cost_factor :=
    py_max 0 ((budget_per_person - inject_Z approx_cost)
              / py_max 1 budget_per_person) in
  let travel_penalty := travel_min / 30 in
  popularity ← as_number popularity;
  let score := 0.5 * popularity + 0.3 * cost_factor - 0.2 * travel_penalty in
  Ok (score, approx_cost).

(** [[c.lower() for c in v]] *)
Definition lowered_labels (v : value) : result (list string) :=
  match v with
  | VList l =>
      mapM (fun c => match c with
                     | VStr s => Ok (lower s)
                     | _ => Raise AttributeError
                     end) l
  | VStr s => Ok (map lower (chars s))
  | _ => Raise TypeError
  end.

(** [any(kw in c for c in cats)] *)
Definition any_in (kw : string) (cats : list string) : bool :=
  existsb (py_in kw) cats.

(** [any(kw1 in c or kw2 in c for c in cats)] *)
Definition any_in2 (kw1 kw2 : string) (cats : list string) : bool :=
  existsb (fun c => py_in kw1 c || py_in kw2 c) cats.

Definition estimate_visit_duration (p : place) : result Z :=
  cats ← lowered_labels (get p "categories" (VList []));
  if any_in2 "park" "garden" cats then Ok 60%Z
  else if any_in "cafe" cats then Ok 45%Z
  else if any_in "restaurant" cats then Ok 75%Z
  else if any_in "mall" cats then Ok 120%Z
  else if any_in "museum" cats then Ok 60%Z
  else if any_in2 "adventure" "amusement" cats then Ok 90%Z
  else Ok 45%Z.

(** The body of the first loop: one enriched [dict] per place. *)
Definition enrich (start_lat start_lon : value) (budget_per_person : Q)
    (p : place) : result place :=
  plat ← getitem p "lat";
  plon ← getitem p "lon";
  travel_min ← travel_time_min start_lat start_lon plat plon default_speed;
  sc ← compute_score p budget_per_person travel_min;
  Ok (<["approx_cost_pp" := VInt (snd sc)]>
       (<["score" := VFloat (fst sc)]>
         (<["travel_from_start" := VFloat travel_min]> p))).

(** The body of the second loop; [continue] hands the state back
    unchanged. *)
Definition visit (people : Z) (st : loop_state) (p : place) : result loop_state :=
  approx_cost_pp ← getitem p "approx_cost_pp" ≫= as_number;
  let total_cost := approx_cost_pp * inject_Z people in
  if py_gt total_cost (remaining_budget st) then Ok st
  else
    plat ← getitem p "lat";
    plon ← getitem p "lon";
    travel_min ←
      travel_time_min (current_lat st) (current_lon st) plat plon default_speed;
    visit_duration ← estimate_visit_duration p;
    if py_gt (total_minutes_used st + travel_min + inject_Z visit_duration)
             MAX_MINUTES
    then Ok st
    else
      pname ← getitem p "name";
      let stop := {|
        name := pname;
        categories := get p "categories" (VList []);
        photo_url := get p "photo_url" VNone;
        cost := total_cost;
        travel_time := travel_min;
        duration := visit_duration;
        lat := plat;
        lon := plon |} in
      Ok {|
        itinerary := itinerary st ++ [stop];
        remaining_budget := remaining_budget st - total_cost;
        current_lat := plat;
        current_lon := plon;
        total_minutes_used :=
          total_minutes_used st + (travel_min + inject_Z visit_duration) |}.

Definition generate_itinerary_from_selected (selected_places : list place)
    (start_lat start_lon : value) (total_budget : Q) (people : Z)
  : result (list Stop) :=
  match selected_places with
  | [] => Ok []
  | _ =>
      let budget_per_person := total_budget / inject_Z (Z.max 1 people) in
      enriched ← mapM (enrich start_lat start_lon budget_per_person)
                      selected_places;
      enriched ← list_sort (fun x => getitem x "score" ≫= as_number) true
                           enriched;
      st ← for_each (visit people)
             {| itinerary := [];
                remaining_budget := total_budget;
                current_lat := start_lat;
                current_lon := start_lon;
                total_minutes_used := 0 |}
             enriched;
      Ok (itinerary st)
  end.
End Planner.

(** ** The reference algorithm of the design document

    Written from the document's sections 3 and 4 over typed records; the
    planner above is compared with it below. *)

Module Reference.
Definition Coordinate : Type := Q * Q.

Record Place : Type := mkPlace {
  displayName : string;
  categoryLabels : list string;
  coordinate : Coordinate;
  priceTier : option Z;
  popularity : option Q;
  photo : option string
}.

Record Candidate : Type := mkCandidate {
  candidate : Place;
  travelMinutesFromStart : Q;
  candidateScore : Q;
  approxCostPerPerson : Z
}.

Record ItineraryStop : Type := mkItineraryStop {
  stopName : string;
  stopCategories : list string;
  stopPhoto : option string;
  totalCost : Q;
  travelMinutes : Q;
  visitDuration : Z;
  stopCoordinate : Coordinate
}.

Record BuilderState : Type := mkBuilderState {
  stops : list ItineraryStop;
  remainingBudget : Q;
  currentPosition : Coordinate;
  minutesUsed : Q
}.

(** *** 4.2 Visit Duration Estimator *)

Definition containsIgnoringCase (keyword label : string) : bool :=
  py_in keyword (lower label).

Definition durationRules : list (list string * Z) :=
  [ (["park"; "garden"], 60%Z);
    (["cafe"], 45%Z);
    (["restaurant"], 75%Z);
    (["mall"], 120%Z);
    (["museum"], 60%Z);
    (["adventure"; "amusement"], 90%Z) ].

Definition ruleMatches (labels : list string) (rule : list string * Z) : bool :=
  existsb (fun label =>
             existsb (fun keyword => containsIgnoringCase keyword label)
                     (fst rule))
          labels.

Definition estimateDuration (labels : list string) : Z :=
  match find (ruleMatches labels) durationRules with
  | Some rule => snd rule
  | None => 45%Z
  end.

(** *** 4.3 Score Calculator *)

Definition approximateCost (tier : option Z) : Z :=
  match tier with
  | Some 1%Z => 200%Z
  | Some 2%Z => 400%Z
  | Some 3%Z => 800%Z
  | Some 4%Z => 1200%Z
  | _ => 400%Z
  end.

Definition score (p : Place) (budgetPerPerson travelMinutes : Q) : Q * Z :=
  let pop := default 0.6 (popularity p) in
  let approx := approximateCost (priceTier p) in
  let costFactor :=
    Qmax 0 ((budgetPerPerson - inject_Z approx) / Qmax 1 budgetPerPerson) in
  let travelPenalty := travelMinutes / 30 in
  (0.5 * pop + 0.3 * costFactor - 0.2 * travelPenalty, approx).

(** *** Ordering: score descending, ties in input order *)

Section Ordering.
Context {A : Type} (key : A -> Q).

(** [x] comes from further left in the input than everything in [l]:
    it passes the elements that score strictly higher and stops in
    front of the first one that does not. *)
Fixpoint insertDescending (x : A) (l : list A) : list A :=
  match l with
  | [] => [x]
  | y :: l' =>
      if py_gt (key y) (key x) then y :: insertDescending x l'
      else x :: y :: l'
  end.

Definition sortDescending (l : list A) : list A :=
  fold_right insertDescending [] l.
End Ordering.

(** *** 4.1 and 4.4: travel time and the Itinerary Builder *)

Section Builder.
Variable distance : Coordinate -> Coordinate -> Q.

Definition travelTime (a b : Coordinate) : Q := distance a b / 20 * 60.

Definition enrichCandidate (start : Coordinate) (budgetPerPerson : Q)
    (p : Place) : Candidate :=
  let t := travelTime start (coordinate p) in
  let sc := score p budgetPerPerson t in
  {| candidate := p;
     travelMinutesFromStart := t;
     candidateScore := fst sc;
     approxCostPerPerson := snd sc |}.

Definition consider (partySize : Z) (st : BuilderState) (c : Candidate)
  : BuilderState :=
  let cost := inject_Z (approxCostPerPerson c) * inject_Z partySize in
  if py_gt cost (remainingBudget st) then st
  else
    let p := candidate c in
    let travel := travelTime (currentPosition st) (coordinate p) in
    let visit := estimateDuration (categoryLabels p) in
    if py_gt (minutesUsed st + travel + inject_Z visit) MAX_MINUTES then st
    else
      {| stops := stops st ++
           [ {| stopName := displayName p;
                stopCategories := categoryLabels p;
                stopPhoto := photo p;
                totalCost := cost;
                travelMinutes := travel;
                visitDuration := visit;
                stopCoordinate := coordinate p |} ];
         remainingBudget := remainingBudget st - cost;
         currentPosition := coordinate p;
         minutesUsed := minutesUsed st + (travel + inject_Z visit) |}.

Definition buildItinerary (selectedPlaces : list Place)
    (startCoordinate : Coordinate) (totalBudget : Q) (partySize : Z)
  : list ItineraryStop :=
  let budgetPerPerson := totalBudget / inject_Z (Z.max 1 partySize) in
  let enriched :=
    map (enrichCandidate startCoordinate budgetPerPerson) selectedPlaces in
  let ordered := sortDescending candidateScore enriched in
  stops (fold_left (consider partySize) ordered
           {| stops := [];
              remainingBudget := totalBudget;
              currentPosition := startCoordinate;
              minutesUsed := 0 |}).
End Builder.
End Reference.

(** ** A typed place and the [dict] that carries it *)

Definition optional {A : Type} (inj : A -> value) (o : option A) : value :=
  match o with
  | Some a => inj a
  | None => VNone
  end.

(** [d] carries the place [P]: the keys the planner reads hold [P]'s
    fields.  An absent tier or photo is a missing key or [None]; an absent
    popularity or an empty category list may be a missing key. *)
Record represents (d : place) (P : Reference.Place) : Prop := {
  rep_name : d !! "name" = Some (VStr (Reference.displayName P));
  rep_lat : d !! "lat" = Some (VFloat (fst (Reference.coordinate P)));
  rep_lon : d !! "lon" = Some (VFloat (snd (Reference.coordinate P)));
  rep_categories :
    get d "categories" (VList []) = VList (map VStr (Reference.categoryLabels P));
  rep_price_tier :
    get d "price_tier" VNone = optional VInt (Reference.priceTier P);
  rep_popularity : d !! "popularity" = VFloat <$> Reference.popularity P;
  rep_photo_url : get d "photo_url" VNone = optional VStr (Reference.photo P)
}.

Definition stop_of (s : Reference.ItineraryStop) : Stop :=
  {| name := VStr (Reference.stopName s);
     categories := VList (map VStr (Reference.stopCategories s));
     photo_url := optional VStr (Reference.stopPhoto s);
     cost := Reference.totalCost s;
     travel_time := Reference.travelMinutes s;
     duration := Reference.visitDuration s;
     lat := VFloat (fst (Reference.stopCoordinate s));
     lon := VFloat (snd (Reference.stopCoordinate s)) |}.

(** The geodesic of geopy returns [distance] between any two of [pts]. *)
Definition geodesic_on (geodesic_km : value -> value -> value -> value -> result Q)
    (distance : Reference.Coordinate -> Reference.Coordinate -> Q)
    (pts : list Reference.Coordinate) : Prop :=
  forall a b, In a pts -> In b pts ->
    geodesic_km (VFloat (fst a)) (VFloat (snd a)) (VFloat (fst b)) (VFloat (snd b))
    = Ok (distance a b).

(** ** Totals over an itinerary *)

Definition sum_cost (it : list Stop) : Q :=
  fold_right (fun s acc => cost s + acc) 0 it.

Definition stop_minutes (s : Stop) : Q := travel_time s + inject_Z (duration s).


(** ** Sample data for the examples

    [grid_km] stands in for the geodesic in closed examples: 111 km per
    degree along the axes, [GeopyError] on anything that is not a number. *)

Definition grid_km (lat1 lon1 lat2 lon2 : value) : result Q :=
  match lat1, lon1, lat2, lon2 with
  | VFloat a, VFloat b, VFloat c, VFloat d =>
      Ok (111 * (Qabs (a - c) + Qabs (b - d)))
  | _, _, _, _ => Raise GeopyError
  end.

Definition grid_distance (a b : Reference.Coordinate) : Q :=
  111 * (Qabs (fst a - fst b) + Qabs (snd a - snd b)).

Definition sample_place (n : string) (cats : list string) (la lo : Q)
    (tier : Z) (pop : Q) : place :=
  <["name" := VStr n]> (<["categories" := VList (map VStr cats)]>
  (<["lat" := VFloat la]> (<["lon" := VFloat lo]>
  (<["price_tier" := VInt tier]> (<["popularity" := VFloat pop]> ∅))))).

Definition sample_Place (n : string) (cats : list string) (la lo : Q)
    (tier : Z) (pop : Q) : Reference.Place :=
  {| Reference.displayName := n;
     Reference.categoryLabels := cats;
     Reference.coordinate := (la, lo);
     Reference.priceTier := Some tier;
     Reference.popularity := Some pop;
     Reference.photo := None |}.

Definition garden := sample_place "Garden" ["Park"; "Cafe"] 18.53 73.85 2 0.9.
Definition palace := sample_place "Palace" ["Mall"] 18.52 73.86 4 0.95.
Definition diner := sample_place "Diner" ["Restaurant"] 18.52 73.87 1 0.5.
Definition Garden := sample_Place "Garden" ["Park"; "Cafe"] 18.53 73.85 2 0.9.
Definition Palace := sample_Place "Palace" ["Mall"] 18.52 73.86 4 0.95.
Definition Diner := sample_Place "Diner" ["Restaurant"] 18.52 73.87 1 0.5.
Definition kiosk : place :=
  <["name" := VStr "Kiosk"]> (<["lat" := VFloat 18.53]>
  (<["lon" := VFloat 73.85]> ∅)).

Definition Kiosk : Reference.Place :=
  {| Reference.displayName := "Kiosk";
     Reference.categoryLabels := [];
     Reference.coordinate := (18.53, 73.85);
     Reference.priceTier := None;
     Reference.popularity := None;
     Reference.photo := None |}.

Definition start_lat : value := VFloat 18.52.
Definition start_lon : value := VFloat 73.85.
Definition start : Reference.Coordinate := (18.52, 73.85).

(** ** Vocabulary of the properties *)

Definition initial_state (start_lat start_lon : value) (total_budget : Q)
  : loop_state :=
  {| itinerary := [];
     remaining_budget := total_budget;
     current_lat := start_lat;
     current_lon := start_lon;
     total_minutes_used := 0 |}.

(** The candidate [p] was appended to the itinerary as the stop [s],
    taking the loop from [st] to [st']. *)
Record accepted (people : Z) (st : loop_state) (p : place) (s : Stop)
    (st' : loop_state) : Prop := {
  acc_itinerary : itinerary st' = itinerary st ++ [s];
  acc_remaining : remaining_budget st' = remaining_budget st - cost s;
  acc_minutes :
    total_minutes_used st' = total_minutes_used st + stop_minutes s;
  acc_lat : current_lat st' = lat s;
  acc_lon : current_lon st' = lon s;
  acc_budget_gate : cost s <= remaining_budget st;
  acc_time_gate :
    total_minutes_used st + travel_time s + inject_Z (duration s)
    <= MAX_MINUTES;
  acc_name : getitem p "name" = Ok (name s);
  acc_categories : categories s = get p "categories" (VList []);
  acc_photo_url : photo_url s = get p "photo_url" VNone;
  acc_duration : estimate_visit_duration p = Ok (duration s);
  acc_cost :
    (c ← getitem p "approx_cost_pp" ≫= as_number; Ok (c * inject_Z people))
    = Ok (cost s);
  acc_place_lat : getitem p "lat" = Ok (lat s);
  acc_place_lon : getitem p "lon" = Ok (lon s)
}.

(** What the loop keeps true of the money: the remaining budget is what
    the accepted stops left of the total and is not negative, and every
    stop was affordable when it was taken. *)
Definition budget_invariant (total_budget : Q) (st : loop_state) : Prop :=
  remaining_budget st == total_budget - sum_cost (itinerary st) /\
  0 <= remaining_budget st /\
  forall pre s post, itinerary st = pre ++ s :: post ->
    cost s <= total_budget - sum_cost pre.


Definition occurs_ignoring_case (kw label : string) : Prop :=
  exists pre w post, label = pre +:+ w +:+ post /\ lower w = lower kw.

Definition mentions (kw : string) (labels : list string) : Prop :=
  exists label, In label labels /\ occurs_ignoring_case kw label.

(** [first_match labels dflt rules d]: [d] is the minutes of the first rule
    one of whose keywords some label mentions, and [dflt] when there is no
    such rule. *)
Inductive first_match (labels : list string) (dflt : Z)
  : list (list string * Z) -> Z -> Prop :=
| first_match_default : first_match labels dflt [] dflt
| first_match_hit (kws : list string) (m : Z) (rules : list (list string * Z)) :
    (exists kw, In kw kws /\ mentions kw labels) ->
    first_match labels dflt ((kws, m) :: rules) m
| first_match_miss (kws : list string) (m : Z) (rules : list (list string * Z))
    (d : Z) :
    (forall kw, In kw kws -> ~ mentions kw labels) ->
    first_match labels dflt rules d ->
    first_match labels dflt ((kws, m) :: rules) d.

(** The enriched [dict] [e] carries the candidate [c]. *)
Record carries (e : place) (c : Reference.Candidate) : Prop := {
  car_place : represents e (Reference.candidate c);
  car_score : e !! "score" = Some (VFloat (Reference.candidateScore c));
  car_cost :
    e !! "approx_cost_pp" = Some (VInt (Reference.approxCostPerPerson c))
}.

Definition state_of (st : Reference.BuilderState) : loop_state :=
  {| itinerary := map stop_of (Reference.stops st);
     remaining_budget := Reference.remainingBudget st;
     current_lat := VFloat (fst (Reference.currentPosition st));
     current_lon := VFloat (snd (Reference.currentPosition st));
     total_minutes_used := Reference.minutesUsed st |}.

(** The candidate fails the budget gate or the time gate of a planner that
    has not accepted anything yet. *)
Definition infeasible
    (distance : Reference.Coordinate -> Reference.Coordinate -> Q)
    (start : Reference.Coordinate) (total_budget : Q) (people : Z)
    (P : Reference.Place) : Prop :=
  total_budget
  < inject_Z (Reference.approximateCost (Reference.priceTier P)) * inject_Z people
  \/
  MAX_MINUTES
  < 0 + Reference.travelTime distance start (Reference.coordinate P)
    + inject_Z (Reference.estimateDuration (Reference.categoryLabels P)).

(** The stop [s] was built from the place [p]. *)
Record stop_from (p : place) (s : Stop) : Prop := {
  from_name : getitem p "name" = Ok (name s);
  from_lat : getitem p "lat" = Ok (lat s);
  from_lon : getitem p "lon" = Ok (lon s);
  from_categories : categories s = get p "categories" (VList []);
  from_photo_url : photo_url s = get p "photo_url" VNone;
  from_duration : estimate_visit_duration p = Ok (duration s)
}.

(** ** Orders on lists *)

Definition ascending {A : Type} : list (Q * A) -> Prop :=
  StronglySorted (fun a b => fst a <= fst b).

Definition descending {A : Type} (key : A -> Q) : list A -> Prop :=
  StronglySorted (fun a b => key b <= key a).



(** ** Vocabulary of the further properties *)

(** Every stop of [it] is reached from the stop before it, the first one
    from [(from_lat, from_lon)]: its travel time is that of
    [travel_time_min] between the two positions. *)
Fixpoint chained (geodesic_km : value -> value -> value -> value -> result Q)
    (from_lat from_lon : value) (it : list Stop) : Prop :=
  match it with
  | [] => True
  | s :: it' =>
      travel_time_min geodesic_km from_lat from_lon (lat s) (lon s) default_speed
      = Ok (travel_time s) /\
      chained geodesic_km (lat s) (lon s) it'
  end.

(** Where the loop stands after the stops [it]. *)
Definition last_position (from_lat from_lon : value) (it : list Stop)
  : value * value :=
  match last it with
  | Some s => (lat s, lon s)
  | None => (from_lat, from_lon)
  end.

(** [q] is the score that the enrichment pass gives the place [p]. *)
Definition scored (geodesic_km : value -> value -> value -> value -> result Q)
    (start_lat start_lon : value) (budget_per_person : Q) (p : place) (q : Q)
  : Prop :=
  exists plat plon travel_min approx_cost,
    getitem p "lat" = Ok plat /\ getitem p "lon" = Ok plon /\
    travel_time_min geodesic_km start_lat start_lon plat plon default_speed
    = Ok travel_min /\
    compute_score p budget_per_person travel_min = Ok (q, approx_cost).

(** The place passes both gates of a planner that has not accepted
    anything yet. *)
Definition feasible
    (distance : Reference.Coordinate -> Reference.Coordinate -> Q)
    (start : Reference.Coordinate) (total_budget : Q) (people : Z)
    (P : Reference.Place) : Prop :=
  inject_Z (Reference.approximateCost (Reference.priceTier P)) * inject_Z people
  <= total_budget /\
  0 + Reference.travelTime distance start (Reference.coordinate P)
  + inject_Z (Reference.estimateDuration (Reference.categoryLabels P))
  <= MAX_MINUTES.

(** The keys of a place that the planner reads. *)
Definition read_keys : list string :=
  ["lat"; "lon"; "name"; "categories"; "photo_url"; "price_tier"; "popularity"].

(** Two places that agree on every key the planner reads. *)
Definition same_inputs (p p' : place) : Prop :=
  forall k, In k read_keys -> p !! k = p' !! k.

(** Two enriched places that agree on every key the second pass reads. *)
Definition same_enriched (e e' : place) : Prop :=
  forall k, In k ("score" :: "approx_cost_pp" :: read_keys) -> e !! k = e' !! k.

(** The number under ["score"], as the sort key reads it. *)
Definition score_of (e : place) : Q :=
  match e !! "score" with
  | Some (VFloat q) => q
  | Some (VInt n) => inject_Z n
  | _ => 0
  end.

(** [isinstance(v, (int, float))] *)
Definition is_number (v : value) : bool :=
  match v with
  | VInt _ | VFloat _ => true
  | _ => false
  end.

(** [isinstance(v, str)] *)
Definition is_str (v : value) : bool :=
  match v with
  | VStr _ => true
  | _ => false
  end.

(** The score under which the sort files an enriched place. *)
Definition sort_key (e : place) : result Q := getitem e "score" ≫= as_number.

(** The score of a typed place as the reference algorithm ranks it. *)
Definition place_score
    (distance : Reference.Coordinate -> Reference.Coordinate -> Q)
    (start : Reference.Coordinate) (budget_per_person : Q)
    (P : Reference.Place) : Q :=
  Reference.candidateScore
    (Reference.enrichCandidate distance start budget_per_person P).

(** No two of the places have the same score. *)
Definition no_ties
    (distance : Reference.Coordinate -> Reference.Coordinate -> Q)
    (start : Reference.Coordinate) (budget_per_person : Q)
    (places : list Reference.Place) : Prop :=
  NoDup (map (fun P => Qred (place_score distance start budget_per_person P))
             places).

(** Descending with no two neighbours, or any two elements, of equal key. *)
Definition strictly_descending {A : Type} (key : A -> Q) : list A -> Prop :=
  StronglySorted (fun a b => key b < key a).

(** ** [main.py] and [api.py]: from the Foursquare answer to the places

    A record of the Foursquare answer is a [dict] with nested JSON.  Its
    ["location"] entry and its ["categories"] entry are kept apart from the
    other entries, which hold no objects: a location is an object with
    plain entries or some other value, the categories are a list of such
    objects or some other value. *)

Inductive location_entry : Type :=
| LocationObject (o : gmap string value)
| LocationOther (v : value).

Inductive categories_entry : Type :=
| CategoryObjects (l : list (gmap string value))
| CategoriesOther (v : value).

Record raw_place : Type := mkRawPlace {
  raw_entries : gmap string value;
  raw_location : option location_entry;
  raw_categories : option categories_entry
}.

(** [loc.get(k)] on what ["location"] holds: only an object has [get]. *)
Definition location_get (loc : location_entry) (k : string) : result value :=
  match loc with
  | LocationObject o => Ok (get o k VNone)
  | LocationOther _ => Raise AttributeError
  end.

(** [[c.get("name", "") for c in p.get("categories", [])]]: an element that
    is not an object has no [get]; [None] and numbers cannot be iterated. *)
Definition category_names (cats : option categories_entry) : result (list value) :=
  match cats with
  | None => Ok []
  | Some (CategoryObjects l) => Ok (map (fun c => get c "name" (VStr "")) l)
  | Some (CategoriesOther (VList [])) => Ok []
  | Some (CategoriesOther (VList (_ :: _))) => Raise AttributeError
  | Some (CategoriesOther (VStr EmptyString)) => Ok []
  | Some (CategoriesOther (VStr (String _ _))) => Raise AttributeError
  | Some (CategoriesOther _) => Raise TypeError
  end.

(** [p[:n]]: the first [n] elements, or all but the last [-n] when [n] is
    negative. *)
Definition py_take {A : Type} (n : Z) (l : list A) : list A :=
  if (0 <=? n)%Z then take (Z.to_nat n) l
  else take (length l - Z.to_nat (- n)) l.

Section Normalization.
(** [float(s)] on a string, the parser of the Python runtime. *)
Variable float_of_str : string -> result Q.

(** [float(v)] *)
Definition py_float (v : value) : result Q :=
  match v with
  | VInt n => Ok (inject_Z n)
  | VFloat x => Ok x
  | VStr s => float_of_str s
  | VNone | VList _ => Raise TypeError
  end.

(** The body of the loop over [places_raw] in [main.py]: [None] is the
    [continue] of a record without latitude, [Some] the appended [dict]. *)
Definition normalize_place (p : raw_place) : result (option place) :=
  let loc := default (LocationObject ∅) (raw_location p) in
  plat ← location_get loc "latitude";
  plon ← location_get loc "longitude";
  match plat with
  | VNone => Ok None
  | _ =>
      names ← category_names (raw_categories p);
      flat ← py_float plat;
      flon ← py_float plon;
      Ok (Some
        (<["photo_url" := VNone]>
        (<["popularity" := get (raw_entries p) "popularity" (VFloat 0.5)]>
        (<["price_tier" := get (raw_entries p) "price" VNone]>
        (<["lon" := VFloat flon]>
        (<["lat" := VFloat flat]>
        (<["categories" := VList names]>
        (<["name" := get (raw_entries p) "name" (VStr "Unknown Place")]>
        (<["fsq_place_id" := get (raw_entries p) "fsq_place_id" VNone]>
           ∅)))))))))
  end.

(** The whole loop: the list [normalized]. *)
Definition normalized (places_raw : list raw_place) : result (list place) :=
  for_each (fun acc p =>
              r ← normalize_place p;
              Ok (match r with
                  | Some d => acc ++ [d]
                  | None => acc
                  end))
           [] places_raw.

(** [safe_get_main_coords] of [api.py]: the same reads inside a [try] whose
    bare [except] answers [(None, None)]. *)
Definition safe_get_main_coords (p : raw_place) : value * value :=
  let attempt : result (value * value) :=
    let loc := default (LocationObject ∅) (raw_location p) in
    plat ← location_get loc "latitude";
    plon ← location_get loc "longitude";
    match plat with
    | VNone => Ok (VNone, VNone)
    | _ =>
        flat ← py_float plat;
        flon ← py_float plon;
        Ok (VFloat flat, VFloat flon)
    end in
  match attempt with
  | Ok r => r
  | Raise _ => (VNone, VNone)
  end.
End Normalization.

Section Photos.
(** [fsq_get_photo_url], a network call that returns [None] or a URL and
    raises nothing; the answer to the [i]-th call of one run. *)
Variable fsq_get_photo_url : nat -> value -> value.

(** [fetch_photos_for_top_places]: the records of the slice are the records
    of the list, so the assignment shows in the list. *)
Definition fetch_photos_for_top_places (places : list place) (top_n : Z)
  : list place :=
  let k := length (py_take top_n places) in
  imap (fun i p =>
          if (i <? k)%nat
          then <["photo_url" := fsq_get_photo_url i (get p "fsq_place_id" VNone)]> p
          else p)
       places.
End Photos.

(** A record of the answer whose entries have the types the Foursquare
    schema gives them. *)
Record well_typed_raw (p : raw_place) : Prop := {
  wt_location :
    exists o la lo,
      raw_location p = Some (LocationObject o) /\
      o !! "latitude" = Some (VFloat la) /\ o !! "longitude" = Some (VFloat lo);
  wt_categories :
    raw_categories p = None \/
    exists l, raw_categories p = Some (CategoryObjects l) /\
              Forall (fun c => exists s, get c "name" (VStr "") = VStr s) l;
  wt_name :
    exists s, get (raw_entries p) "name" (VStr "Unknown Place") = VStr s;
  wt_price :
    exists t, get (raw_entries p) "price" VNone = optional VInt t;
  wt_popularity :
    exists q, get (raw_entries p) "popularity" (VFloat 0.5) = VFloat q
}.

(** A raw record for the examples. *)
Definition raw_garden : raw_place :=
  {| raw_entries :=
       <["name" := VStr "Garden"]> (<["price" := VInt 2]>
       (<["fsq_place_id" := VStr "4b0587"]> ∅));
     raw_location :=
       Some (LocationObject
               (<["latitude" := VFloat 18.53]> (<["longitude" := VFloat 73.85]> ∅)));
     raw_categories :=
       Some (CategoryObjects [ <["name" := VStr "Park"]> ∅ ]) |}.

(** A raw record without a location. *)
Definition raw_nowhere : raw_place :=
  {| raw_entries := <["name" := VStr "Nowhere"]> ∅;
     raw_location := None;
     raw_categories := None |}.

(** A raw record with a latitude and no longitude. *)
Definition raw_half : raw_place :=
  {| raw_entries := <["name" := VStr "Half"]> ∅;
     raw_location :=
       Some (LocationObject (<["latitude" := VFloat 18.53]> ∅));
     raw_categories := None |}.

(** A parser for the examples: no string is a number. *)
Definition no_float (s : string) : result Q := Raise TypeError.

(** A photo service for the examples: it has no photos. *)
Definition no_photo (i : nat) (pid : value) : value := VNone.

(** The exception [e] comes out of the geodesic. *)
Definition from_geodesic
    (geodesic_km : value -> value -> value -> value -> result Q) (e : exn)
  : Prop :=
  exists a b c d, geodesic_km a b c d = Raise e.

(** A record has no latitude: no location at all, or a location object
    whose latitude is missing or [None]. *)
Definition no_latitude (p : raw_place) : Prop :=
  raw_location p = None \/
  exists o, raw_location p = Some (LocationObject o) /\
            get o "latitude" VNone = VNone.

(** * Properties *)

(** ** The error monad and the comparisons *)

Lemma bind_Ok {A B : Type} (m : result A) (f : A -> result B) (b : B) :
  m ≫= f = Ok b -> exists a, m = Ok a /\ f a = Ok b.
Proof. destruct m as [a|e]; [eauto | discriminate]. Qed.

Lemma py_gt_spec (a b : Q) : if py_gt a b then b < a else a <= b.
Proof.
  unfold py_gt. destruct (Qle_bool a b) eqn:E; simpl.
  - by apply Qle_bool_iff.
  - apply Qnot_le_lt. intros H. apply Qle_bool_iff in H. congruence.
Qed.

Lemma py_gt_false (a b : Q) : py_gt a b = false -> a <= b.
Proof. intros H. pose proof (py_gt_spec a b) as S. by rewrite H in S. Qed.

Lemma py_gt_true (a b : Q) : py_gt a b = true -> b < a.
Proof. intros H. pose proof (py_gt_spec a b) as S. by rewrite H in S. Qed.

Lemma py_gt_lt (a b : Q) : b < a -> py_gt a b = true.
Proof.
  intros H. pose proof (py_gt_spec a b) as S.
  destruct (py_gt a b); [done | lra].
Qed.

Lemma py_max_Qmax (a b : Q) : py_max a b = Qmax a b.
Proof.
  unfold py_max, py_gt, Qle_bool, Qmax, GenericMinMax.gmax, Qcompare.
  rewrite Z.leb_compare.
  rewrite (Z.compare_antisym (Qnum a * QDen b) (Qnum b * QDen a)).
  by destruct (Qnum a * QDen b ?= Qnum b * QDen a)%Z.
Qed.

Lemma mapM_Ok {A B : Type} (f : A -> result B) (l : list A) (k : list B) :
  mapM f l = Ok k -> Forall2 (fun x y => f x = Ok y) l k.
Proof.
  revert k. induction l as [|x l IH]; intros k H; simpl in H.
  - injection H as <-. constructor.
  - apply bind_Ok in H as (y & Hy & H).
    apply bind_Ok in H as (k' & Hk' & H).
    injection H as <-. constructor; auto.
Qed.

Lemma mapM_Forall2 {A B : Type} (f : A -> result B) (l : list A) (k : list B) :
  Forall2 (fun x y => f x = Ok y) l k -> mapM f l = Ok k.
Proof.
  induction 1 as [|x y l k Hxy _ IH]; simpl; [done|].
  rewrite Hxy. simpl. rewrite IH. done.
Qed.

Lemma mapM_Raise {A B : Type} (f : A -> result B) (l : list A) (x : A) (e : exn) :
  In x l -> f x = Raise e -> exists e', mapM f l = Raise e'.
Proof.
  induction l as [|y l IH]; intros Hin Hx; [destruct Hin|].
  simpl. destruct (f y) as [b|e1] eqn:Ey; simpl; [|eauto].
  destruct Hin as [->|Hin]; [congruence|].
  destruct (IH Hin Hx) as [e' ->]. simpl. eauto.
Qed.

Lemma Forall2_In_r {A B : Type} (R : A -> B -> Prop) (l : list A) (k : list B)
    (y : B) :
  Forall2 R l k -> In y k -> exists x, In x l /\ R x y.
Proof.
  induction 1 as [|x y' l k Hxy _ IH]; intros Hin; [destruct Hin|].
  destruct Hin as [->|Hin].
  - exists x. split; [by left | done].
  - destruct (IH Hin) as (x' & Hx' & HR). exists x'. split; [by right | done].
Qed.

Lemma for_each_invariant {S A : Type} (body : S -> A -> result S) (I : S -> Prop)
    (xs : list A) :
  (forall st x st', In x xs -> I st -> body st x = Ok st' -> I st') ->
  forall st st', I st -> for_each body st xs = Ok st' -> I st'.
Proof.
  induction xs as [|x xs IH]; intros Hstep st st' Hst H; simpl in H.
  - by injection H as <-.
  - apply bind_Ok in H as (st1 & H1 & H).
    apply (IH (fun st x' st' Hin => Hstep st x' st' (or_intror Hin)) st1);
      [|done].
    apply (Hstep st x); [by left|done..].
Qed.

(** ** What one pass through the loop body does *)

Section Loop.
Variable geodesic_km : value -> value -> value -> value -> result Q.

Lemma visit_Ok (people : Z) (st st' : loop_state) (p : place) :
  visit geodesic_km people st p = Ok st' ->
  st' = st \/ exists s, accepted people st p s st'.
Proof.
  unfold visit. intros H.
  apply bind_Ok in H as (c & Hc & H).
  destruct (py_gt _ _) eqn:Hbudget in H.
  { injection H as <-. by left. }
  apply bind_Ok in H as (plat & Hlat & H).
  apply bind_Ok in H as (plon & Hlon & H).
  apply bind_Ok in H as (t & Ht & H).
  apply bind_Ok in H as (d & Hd & H).
  destruct (py_gt _ _) eqn:Htime in H.
  { injection H as <-. by left. }
  apply bind_Ok in H as (pname & Hname & H).
  injection H as <-. right. eexists. split; simpl; try done.
  - by apply py_gt_false.
  - by apply py_gt_false.
  - by rewrite Hc.
Qed.
End Loop.

(** ** Travel time *)

(** [travel_time_min] is the distance over the speed, in minutes; the
    planner calls it with the default speed of 20 km/h. *)
Lemma travel_time_min_formula
    (geodesic_km : value -> value -> value -> value -> result Q)
    (lat1 lon1 lat2 lon2 : value) (speed dist : Q) :
  distance_km geodesic_km lat1 lon1 lat2 lon2 = Ok dist ->
  ~ speed == 0 ->
  travel_time_min geodesic_km lat1 lon1 lat2 lon2 speed
  = Ok (dist / speed * 60) /\
  travel_time_min geodesic_km lat1 lon1 lat2 lon2 default_speed
  = Ok (dist / 20 * 60).
Proof.
  intros Hd Hs. unfold travel_time_min. rewrite Hd. simpl.
  destruct (Qeq_bool speed 0) eqn:E; [|done].
  by apply Qeq_bool_iff in E.
Qed.

(** ** [list.sort] keeps the elements *)

Section SortPermutation.
Context {A : Type}.
Implicit Types (l : list (Q * A)) (kx : Q * A).

Lemma insert_ascending_perm kx l : insert_ascending kx l ≡ₚ kx :: l.
Proof.
  induction l as [|ky l IH]; simpl; [done|].
  destruct (py_lt _ _); [done|]. rewrite IH. apply Permutation_swap.
Qed.

Lemma fold_insert_ascending_perm l acc :
  fold_left (fun acc kx => insert_ascending kx acc) l acc ≡ₚ l ++ acc.
Proof.
  revert acc. induction l as [|kx l IH]; intros acc; simpl; [done|].
  rewrite IH, insert_ascending_perm. by rewrite Permutation_middle.
Qed.

Lemma sort_ascending_perm l : sort_ascending l ≡ₚ l.
Proof.
  unfold sort_ascending. rewrite fold_insert_ascending_perm.
  by rewrite app_nil_r.
Qed.

Lemma list_sort_perm (key : A -> result Q) (reverse : bool) (xs ys : list A) :
  list_sort key reverse xs = Ok ys -> ys ≡ₚ xs.
Proof.
  unfold list_sort. intros H.
  apply bind_Ok in H as (keys & Hkeys & H). injection H as <-.
  apply mapM_Ok, Forall2_length in Hkeys.
  assert (map snd (combine keys xs) = xs) as Hsnd.
  { clear -Hkeys. revert keys Hkeys.
    induction xs as [|x xs IH]; intros [|k keys] Hlen; simpl in *;
      try done. f_equal. apply IH. lia. }
  transitivity (map snd (combine keys xs)); [|by rewrite Hsnd].
  apply Permutation_map. destruct reverse.
  - rewrite <- Permutation_rev, sort_ascending_perm. symmetry.
    apply Permutation_rev.
  - apply sort_ascending_perm.
Qed.
End SortPermutation.

(** ** The shape of a run that returns *)

Section Run.
Variable geodesic_km : value -> value -> value -> value -> result Q.

(** A returned itinerary is the outcome of the acceptance loop over some
    ordering of the enriched input places. *)
Lemma generate_Ok (selected_places : list place) (start_lat start_lon : value)
    (total_budget : Q) (people : Z) (it : list Stop) :
  generate_itinerary_from_selected geodesic_km selected_places
    start_lat start_lon total_budget people = Ok it ->
  exists (enriched ordered : list place) (st : loop_state),
    Forall2 (fun p e =>
               enrich geodesic_km start_lat start_lon
                 (total_budget / inject_Z (Z.max 1 people)) p = Ok e)
            selected_places enriched /\
    ordered ≡ₚ enriched /\
    for_each (visit geodesic_km people)
      (initial_state start_lat start_lon total_budget) ordered = Ok st /\
    itinerary st = it.
Proof.
  unfold generate_itinerary_from_selected. intros H.
  destruct selected_places as [|p ps].
  { injection H as <-. exists [], [], (initial_state start_lat start_lon total_budget).
    repeat split; constructor. }
  apply bind_Ok in H as (enriched & Henr & H).
  apply bind_Ok in H as (ordered & Hord & H).
  apply bind_Ok in H as (st & Hst & H). injection H as <-.
  exists enriched, ordered, st. repeat split; try done.
  - by apply mapM_Ok.
  - by apply list_sort_perm in Hord.
Qed.
End Run.

(** ** Totals *)

Lemma sum_cost_app (it1 it2 : list Stop) :
  sum_cost (it1 ++ it2) == sum_cost it1 + sum_cost it2.
Proof. induction it1 as [|s it1 IH]; simpl; [lra | rewrite IH; lra]. Qed.


(** A list that ends in [s] and is cut somewhere: the cut is at the end or
    inside the front part. *)
Lemma snoc_split {A : Type} (l pre post : list A) (s x : A) :
  l ++ [s] = pre ++ x :: post ->
  (post = [] /\ pre = l /\ x = s) \/
  (exists post', post = post' ++ [s] /\ l = pre ++ x :: post').
Proof.
  induction post as [|y post' _] using rev_ind.
  - intros H. apply app_inj_tail in H as [-> ->]. by left.
  - intros H. rewrite app_comm_cons, app_assoc in H.
    apply app_inj_tail in H as [-> ->]. right. by exists post'.
Qed.

Lemma approx_cost_of_values (v : value) (c : Z) :
  approx_cost_of v = Ok c -> In c [200; 400; 800; 1200]%Z.
Proof.
  assert (forall x, In (table_get cost_table x 400%Z) [200; 400; 800; 1200]%Z)
    as Htable.
  { intros x. unfold table_get, cost_table. simpl.
    repeat (destruct (Qeq_bool x _); [simpl; tauto|]). simpl. tauto. }
  destruct v; simpl; intros H; try discriminate; injection H as <-;
    try apply Htable; simpl; tauto.
Qed.

(** ** The budget gate *)

Section BudgetGate.
Variable geodesic_km : value -> value -> value -> value -> result Q.

Lemma visit_budget_invariant (total_budget : Q) (people : Z)
    (st st' : loop_state) (p : place) :
  budget_invariant total_budget st ->
  visit geodesic_km people st p = Ok st' ->
  budget_invariant total_budget st'.
Proof.
  intros (Hrem & Hpos & Hpre) H.
  apply visit_Ok in H as [->|(s & Hacc)]; [done|].
  destruct Hacc as [Hit Hrem' _ _ _ Hgate _ _ _ _ _ _ _ _].
  unfold budget_invariant. rewrite Hit, Hrem'.
  split; [|split].
  - rewrite sum_cost_app. simpl. lra.
  - lra.
  - intros pre x post Hsplit.
    apply snoc_split in Hsplit as [(_ & -> & ->)|(post' & _ & Hin)].
    + lra.
    + by apply (Hpre pre x post').
Qed.

Lemma enrich_Ok_cost (start_lat start_lon : value) (bpp : Q) (p e : place) :
  enrich geodesic_km start_lat start_lon bpp p = Ok e ->
  exists c, In c [200; 400; 800; 1200]%Z /\
            e !! "approx_cost_pp" = Some (VInt c).
Proof.
  unfold enrich. intros H.
  apply bind_Ok in H as (plat & _ & H). apply bind_Ok in H as (plon & _ & H).
  apply bind_Ok in H as (t & _ & H). apply bind_Ok in H as ([sc c] & Hsc & H).
  injection H as <-. exists c. split; [|by rewrite lookup_insert_eq].
  unfold compute_score in Hsc. apply bind_Ok in Hsc as (c' & Hc' & Hsc).
  apply bind_Ok in Hsc as (q & _ & Hsc). injection Hsc as _ <-.
  by apply approx_cost_of_values in Hc'.
Qed.

(** The cost of a stop is the approximate cost per person of its place
    times the party size. *)
Lemma stop_costs (selected_places : list place)
    (start_lat start_lon : value) (total_budget : Q) (people : Z)
    (it : list Stop) :
  generate_itinerary_from_selected geodesic_km selected_places
    start_lat start_lon total_budget people = Ok it ->
  Forall (fun s => exists c, In c [200; 400; 800; 1200]%Z /\
                             cost s = inject_Z c * inject_Z people) it.
Proof.
  intros H.
  apply generate_Ok in H as (enriched & ordered & st & Henr & Hperm & Hloop & <-).
  eapply (for_each_invariant _
            (fun st => Forall (fun s => exists c, In c [200; 400; 800; 1200]%Z /\
                                  cost s = inject_Z c * inject_Z people)
                         (itinerary st))); [|..|exact Hloop].
  - intros st0 e st1 He Hst0 Hvisit.
    apply visit_Ok in Hvisit as [->|(s & Hacc)]; [done|].
    rewrite (acc_itinerary _ _ _ _ _ Hacc).
    apply Forall_app. split; [done|]. constructor; [|constructor].
    apply list_elem_of_In in He. rewrite Hperm in He.
    apply list_elem_of_In in He.
    destruct (Forall2_In_r _ _ _ _ Henr He) as (p & _ & Hpe).
    apply enrich_Ok_cost in Hpe as (c & Hc & Hlook).
    exists c. split; [done|].
    pose proof (acc_cost _ _ _ _ _ Hacc) as Hcost.
    unfold getitem in Hcost. rewrite Hlook in Hcost. simpl in Hcost.
    congruence.
  - constructor.
Qed.

(** C1. For a total budget that is not negative and any party size, every
    stop of a returned itinerary cost no more than what was left of the
    budget when it was accepted, that is the total minus the costs of the
    stops before it; hence the costs of all stops add up to no more than
    the total budget. The cost of a stop is the approximate cost per person
    of its place times the party size. *)
Theorem stops_within_remaining_budget (selected_places : list place)
    (start_lat start_lon : value) (total_budget : Q) (people : Z)
    (it : list Stop) :
  0 <= total_budget ->
  generate_itinerary_from_selected geodesic_km selected_places
    start_lat start_lon total_budget people = Ok it ->
  (forall pre s post, it = pre ++ s :: post ->
     cost s <= total_budget - sum_cost pre) /\
  sum_cost it <= total_budget /\
  Forall (fun s => exists approx_cost_pp, In approx_cost_pp [200; 400; 800; 1200]%Z /\
                   cost s = inject_Z approx_cost_pp * inject_Z people) it.
Proof.
  intros Hbudget H. pose proof (stop_costs _ _ _ _ _ _ H) as Hcosts.
  apply generate_Ok in H as (enriched & ordered & st & _ & _ & Hloop & <-).
  assert (budget_invariant total_budget st) as (Hrem & Hpos & Hpre).
  { eapply for_each_invariant; [|..|exact Hloop].
    - intros st0 x st1 _. apply visit_budget_invariant.
    - unfold budget_invariant. simpl. repeat split; [lra|done|].
      intros [|? ?] ? ? ?; discriminate. }
  split; [done|]. split; [lra | done].
Qed.
End BudgetGate.

Lemma stops_within_remaining_budget_witness :
  exists it,
    generate_itinerary_from_selected grid_km [garden; palace; diner]
      start_lat start_lon 2000 2 = Ok it /\
    sum_cost it <= 2000.
Proof.
  eexists. split; [vm_compute; reflexivity|].
  apply (stops_within_remaining_budget grid_km [garden; palace; diner]
           start_lat start_lon 2000 2).
  - discriminate.
  - vm_compute. reflexivity.
Defined.

(** ** The time gate *)

Section TimeGate.
Variable geodesic_km : value -> value -> value -> value -> result Q.


End TimeGate.


(** ** Records without coordinates *)

Section MissingCoordinates.
Variable geodesic_km : value -> value -> value -> value -> result Q.

Lemma enrich_missing_coordinate (start_lat start_lon : value) (bpp : Q) (p : place) :
  p !! "lat" = None \/ p !! "lon" = None ->
  exists k, enrich geodesic_km start_lat start_lon bpp p = Raise (KeyError k).
Proof.
  unfold enrich, getitem. intros [H|H].
  - rewrite H. simpl. eauto.
  - destruct (p !! "lat"); simpl; [rewrite H|]; simpl; eauto.
Qed.

Lemma enrich_rejected_coordinate (start_lat start_lon : value) (bpp : Q)
    (p : place) (plat plon : value) (e : exn) :
  p !! "lat" = Some plat -> p !! "lon" = Some plon ->
  geodesic_km start_lat start_lon plat plon = Raise e ->
  enrich geodesic_km start_lat start_lon bpp p = Raise e.
Proof.
  unfold enrich, getitem, travel_time_min, distance_km.
  intros -> -> H. simpl. by rewrite H.
Qed.

(** C4, as the planner has it. The planner excludes nothing: when any
    record of the input lacks the ["lat"] or the ["lon"] key, or has
    coordinates on which the geodesic raises, the call raises and returns
    no itinerary, not even a partial one. *)
Theorem missing_coordinate_raises (selected_places : list place)
    (start_lat start_lon : value) (total_budget : Q) (people : Z) (p : place) :
  In p selected_places ->
  p !! "lat" = None \/ p !! "lon" = None \/
  (exists plat plon e,
     p !! "lat" = Some plat /\ p !! "lon" = Some plon /\
     geodesic_km start_lat start_lon plat plon = Raise e) ->
  exists e,
    generate_itinerary_from_selected geodesic_km selected_places
      start_lat start_lon total_budget people = Raise e.
Proof.
  intros Hin Hmiss.
  assert (exists e, enrich geodesic_km start_lat start_lon
                      (total_budget / inject_Z (Z.max 1 people)) p = Raise e)
    as [e0 He0].
  { destruct Hmiss as [H|[H|(plat & plon & e & Hlat & Hlon & H)]].
    - destruct (enrich_missing_coordinate start_lat start_lon
                  (total_budget / inject_Z (Z.max 1 people)) p) as [k Hk];
        eauto.
    - destruct (enrich_missing_coordinate start_lat start_lon
                  (total_budget / inject_Z (Z.max 1 people)) p) as [k Hk];
        eauto.
    - exists e. by apply (enrich_rejected_coordinate _ _ _ _ plat plon). }
  destruct (mapM_Raise _ _ _ _ Hin He0) as [e He].
  unfold generate_itinerary_from_selected.
  destruct selected_places as [|q qs]; [destruct Hin|].
  rewrite He. simpl. eauto.
Qed.
End MissingCoordinates.

(** The record of the garden has lost its latitude; the diner behind it is
    complete and is accepted when it comes alone. With both, the call
    raises [KeyError]. *)
Lemma missing_coordinate_not_excluded :
  generate_itinerary_from_selected grid_km [delete "lat" garden; diner]
    start_lat start_lon 2000 2 = Raise (KeyError "lat") /\
  exists s,
    generate_itinerary_from_selected grid_km [diner]
      start_lat start_lon 2000 2 = Ok [s].
Proof. split; [|eexists]; vm_compute; reflexivity. Qed.

Lemma missing_coordinate_raises_witness :
  exists e,
    generate_itinerary_from_selected grid_km [delete "lat" garden; diner]
      start_lat start_lon 2000 2 = Raise e.
Proof.
  apply (missing_coordinate_raises grid_km _ _ _ _ _ (delete "lat" garden)).
  - simpl. auto.
  - left. vm_compute. reflexivity.
Defined.

(** ** The score *)

Lemma Qeq_bool_inject_Z (n k : Z) :
  Qeq_bool (inject_Z n) (inject_Z k) = (n =? k)%Z.
Proof.
  destruct (Z.eqb_spec n k) as [->|Hne].
  - apply Qeq_bool_iff. reflexivity.
  - destruct (Qeq_bool _ _) eqn:E; [|done].
    apply Qeq_bool_iff in E. unfold Qeq in E. simpl in E. lia.
Qed.

Lemma approx_cost_of_int (n : Z) :
  approx_cost_of (VInt n) = Ok (Reference.approximateCost (Some n)).
Proof.
  unfold approx_cost_of, table_get, cost_table. simpl.
  rewrite !Qeq_bool_inject_Z. f_equal.
  destruct (Z.eqb_spec n 1) as [->|H1]; [done|].
  destruct (Z.eqb_spec n 2) as [->|H2]; [done|].
  destruct (Z.eqb_spec n 3) as [->|H3]; [done|].
  destruct (Z.eqb_spec n 4) as [->|H4]; [done|].
  destruct n as [|q|q]; try done.
  destruct q as [[q|q|]|[q|[q|q|]|]|]; done.
Qed.

Lemma approx_cost_of_tier (p : place) (tier : option Z) :
  get p "price_tier" VNone = optional VInt tier ->
  approx_cost_of (get p "price_tier" (VInt 2))
  = Ok (Reference.approximateCost tier).
Proof.
  unfold get. destruct (p !! "price_tier") as [v|]; intros H.
  - subst v. destruct tier as [n|]; simpl; [apply approx_cost_of_int | done].
  - destruct tier; [discriminate | done].
Qed.

(** C5. For a place whose popularity is absent or a number and whose price
    tier is absent, [None] or an integer, [compute_score] returns the pair
    of [0.5 * popularity + 0.3 * costFactor - 0.2 * (travel_min / 30)] and
    the approximate cost: the popularity is 0.6 when absent, the cost is
    200, 400, 800, 1200 for the tiers 1 to 4 and 400 for every other or
    absent tier, and the cost factor
    [max 0 ((budget - cost) / max 1 budget)] is 0 when the cost is not
    below the budget per person. The tier 3 costs 800 and the tier [None]
    costs 400. *)
Theorem compute_score_formula (p : place) (pop : Q) (tier : option Z)
    (budget_per_person travel_min : Q) :
  match p !! "popularity" with
  | None => pop = 0.6
  | Some v => as_number v = Ok pop
  end ->
  get p "price_tier" VNone = optional VInt tier ->
  let approxCost :=
    match tier with
    | Some 1%Z => 200%Z
    | Some 2%Z => 400%Z
    | Some 3%Z => 800%Z
    | Some 4%Z => 1200%Z
    | _ => 400%Z
    end in
  let costFactor :=
    Qmax 0 ((budget_per_person - inject_Z approxCost)
            / Qmax 1 budget_per_person) in
  compute_score p budget_per_person travel_min
  = Ok (0.5 * pop + 0.3 * costFactor - 0.2 * (travel_min / 30), approxCost) /\
  (budget_per_person <= inject_Z approxCost -> costFactor == 0) /\
  approx_cost_of (VInt 3) = Ok 800%Z /\
  approx_cost_of VNone = Ok 400%Z.
Proof.
  intros Hpop Htier approxCost costFactor.
  split; [|split; [|done]].
  - unfold compute_score.
    rewrite (approx_cost_of_tier p tier Htier). simpl.
    assert (as_number (get p "popularity" (VFloat 0.6)) = Ok pop) as ->.
    { unfold get. destruct (p !! "popularity"); [done | by subst]. }
    simpl. by rewrite !py_max_Qmax.
  - intros Hle. subst costFactor.
    assert (0 < Qmax 1 budget_per_person) as Hden.
    { pose proof (Q.le_max_l 1 budget_per_person). lra. }
    apply Q.max_l.
    apply Qle_shift_div_r; [done | lra].
Qed.

Lemma compute_score_formula_witness :
  compute_score garden 1000 6 = Ok (0.5 * 0.9 + 0.3 * Qmax 0 ((1000 - inject_Z 400) / Qmax 1 1000) - 0.2 * (6 / 30), 400%Z).
Proof.
  apply (compute_score_formula garden 0.9 (Some 2%Z) 1000 6); vm_compute; reflexivity.
Defined.



(** ** Substrings and case *)

Lemma append_cons (c : ascii) (s t : string) :
  String c s +:+ t = String c (s +:+ t).
Proof. reflexivity. Qed.

Lemma starts_with_spec (kw s : string) :
  starts_with kw s = true <-> exists post, s = kw +:+ post.
Proof.
  revert s. induction kw as [|a kw IH]; intros s; simpl.
  - split; [intros _; by exists s | done].
  - setoid_rewrite append_cons. destruct s as [|b s].
    + split; [done | intros [post H]; discriminate].
    + destruct (Ascii.eqb_spec a b) as [->|Hne].
      * rewrite IH. split; intros [post H]; exists post; congruence.
      * split; [done | intros [post H]; congruence].
Qed.

Lemma py_in_spec (kw s : string) :
  py_in kw s = true <-> exists pre post, s = pre +:+ kw +:+ post.
Proof.
  induction s as [|c s IH]; simpl.
  - rewrite orb_false_r, starts_with_spec. split.
    + intros [post H]. by exists EmptyString, post.
    + intros (pre & post & H). destruct pre; [by exists post | discriminate].
  - rewrite orb_true_iff, starts_with_spec, IH. split.
    + intros [[post H]|(pre & post & H)].
      * by exists EmptyString, post.
      * exists (String c pre), post. rewrite append_cons. congruence.
    + intros (pre & post & H). destruct pre as [|c' pre].
      * left. by exists post.
      * right. exists pre, post. rewrite append_cons in H. congruence.
Qed.

Lemma lower_app (s1 s2 : string) : lower (s1 +:+ s2) = lower s1 +:+ lower s2.
Proof.
  induction s1 as [|c s1 IH]; [done|].
  rewrite append_cons. simpl. by rewrite IH.
Qed.

Lemma lower_split (s x y : string) :
  lower s = x +:+ y ->
  exists s1 s2, s = s1 +:+ s2 /\ lower s1 = x /\ lower s2 = y.
Proof.
  revert s. induction x as [|c x IH]; intros s H.
  - by exists EmptyString, s.
  - rewrite append_cons in H. destruct s as [|c' s]; [discriminate|].
    simpl in H. injection H as Hc H.
    destruct (IH s H) as (s1 & s2 & -> & <- & <-).
    exists (String c' s1), s2. simpl. by rewrite Hc.
Qed.

Lemma containsIgnoringCase_spec (kw label : string) :
  lower kw = kw ->
  Reference.containsIgnoringCase kw label = true <-> occurs_ignoring_case kw label.
Proof.
  intros Hkw. unfold Reference.containsIgnoringCase, occurs_ignoring_case.
  rewrite py_in_spec, Hkw. split.
  - intros (pre & post & H).
    apply lower_split in H as (s1 & s2 & -> & <- & H).
    apply lower_split in H as (w & s3 & -> & <- & <-).
    by exists s1, w, s3.
  - intros (pre & w & post & -> & <-).
    exists (lower pre), (lower post). by rewrite !lower_app.
Qed.

Lemma ruleMatches_spec (labels kws : list string) (m : Z) :
  (forall kw, In kw kws -> lower kw = kw) ->
  Reference.ruleMatches labels (kws, m) = true <->
  exists kw, In kw kws /\ mentions kw labels.
Proof.
  intros Hlow. unfold Reference.ruleMatches, mentions. simpl.
  rewrite existsb_exists. split.
  - intros (label & Hlabel & H). apply existsb_exists in H as (kw & Hkw & H).
    exists kw. split; [done|]. exists label. split; [done|].
    by apply containsIgnoringCase_spec; [apply Hlow|].
  - intros (kw & Hkw & label & Hlabel & H). exists label. split; [done|].
    apply existsb_exists. exists kw. split; [done|].
    by apply containsIgnoringCase_spec; [apply Hlow|].
Qed.

Lemma find_first_match (labels : list string) (dflt : Z)
    (rules : list (list string * Z)) :
  (forall rule kw, In rule rules -> In kw (fst rule) -> lower kw = kw) ->
  first_match labels dflt rules
    match find (Reference.ruleMatches labels) rules with
    | Some rule => snd rule
    | None => dflt
    end.
Proof.
  induction rules as [|[kws m] rules IH]; intros Hlow; simpl.
  - constructor.
  - assert (forall kw, In kw kws -> lower kw = kw) as Hkws.
    { intros kw Hkw. apply (Hlow (kws, m)); [by left | done]. }
    pose proof (ruleMatches_spec labels kws m Hkws) as Hspec.
    destruct (Reference.ruleMatches labels (kws, m)).
    + apply first_match_hit. by apply Hspec.
    + apply first_match_miss.
      * intros kw Hkw Hm.
        assert (false = true) by (apply Hspec; eauto). discriminate.
      * apply IH. intros rule kw Hrule. apply Hlow. by right.
Qed.

Lemma lowered_labels_strings (labels : list string) :
  lowered_labels (VList (map VStr labels)) = Ok (map lower labels).
Proof.
  simpl. induction labels as [|l labels IH]; simpl; [done|].
  by rewrite IH.
Qed.

Lemma any_in_rule (kw : string) (m : Z) (labels : list string) :
  any_in kw (map lower labels) = Reference.ruleMatches labels ([kw], m).
Proof.
  unfold any_in, Reference.ruleMatches, Reference.containsIgnoringCase. simpl.
  induction labels as [|l labels IH]; simpl; [done|].
  by rewrite IH, orb_false_r.
Qed.

Lemma any_in2_rule (kw1 kw2 : string) (m : Z) (labels : list string) :
  any_in2 kw1 kw2 (map lower labels)
  = Reference.ruleMatches labels ([kw1; kw2], m).
Proof.
  unfold any_in2, Reference.ruleMatches, Reference.containsIgnoringCase. simpl.
  induction labels as [|l labels IH]; simpl; [done|].
  by rewrite IH, orb_false_r.
Qed.

Lemma estimate_visit_duration_labels (p : place) (labels : list string) :
  get p "categories" (VList []) = VList (map VStr labels) ->
  estimate_visit_duration p = Ok (Reference.estimateDuration labels).
Proof.
  intros H. unfold estimate_visit_duration.
  rewrite H, lowered_labels_strings. simpl.
  rewrite (any_in2_rule "park" "garden" 60), (any_in_rule "cafe" 45),
    (any_in_rule "restaurant" 75), (any_in_rule "mall" 120),
    (any_in_rule "museum" 60), (any_in2_rule "adventure" "amusement" 90).
  unfold Reference.estimateDuration, Reference.durationRules. simpl.
  repeat (destruct (Reference.ruleMatches labels _); [done|]). done.
Qed.

(** C6. For a place whose categories are a list of strings (or absent),
    [estimate_visit_duration] returns the minutes of the first rule, in the
    order park or garden 60, cafe 45, restaurant 75, mall 120, museum 60,
    adventure or amusement 90, one of whose keywords occurs in some label
    as a substring up to case, and 45 when no rule has one; the labels
    [Park] and [Cafe] together give 60. *)
Theorem estimate_visit_duration_priority (p : place) (labels : list string) :
  get p "categories" (VList []) = VList (map VStr labels) ->
  exists d,
    estimate_visit_duration p = Ok d /\
    first_match labels 45
      [ (["park"; "garden"], 60%Z);
        (["cafe"], 45%Z);
        (["restaurant"], 75%Z);
        (["mall"], 120%Z);
        (["museum"], 60%Z);
        (["adventure"; "amusement"], 90%Z) ] d /\
    estimate_visit_duration (<["categories" := VList [VStr "Park"; VStr "Cafe"]]> ∅)
    = Ok 60%Z.
Proof.
  intros H. exists (Reference.estimateDuration labels).
  split; [by apply estimate_visit_duration_labels|]. split; [|done].
  apply (find_first_match labels 45 Reference.durationRules).
  intros rule kw Hrule Hkw. simpl in Hrule.
  repeat (destruct Hrule as [<-|Hrule];
          [simpl in Hkw; repeat (destruct Hkw as [<-|Hkw]; [done|]); done|]).
  done.
Qed.

Lemma estimate_visit_duration_priority_witness :
  exists d, estimate_visit_duration garden = Ok d.
Proof.
  destruct (estimate_visit_duration_priority garden ["Park"; "Cafe"])
    as (d & Hd & _); [reflexivity|].
  by exists d.
Defined.

(** ** The reversed sort is the stable descending order *)

Section SortDescending.
Context {A : Type}.
Implicit Types (l : list (Q * A)) (kx : Q * A).

Lemma py_lt_false (a b : Q) : py_lt a b = false -> b <= a.
Proof. apply py_gt_false. Qed.

Lemma py_lt_true (a b : Q) : py_lt a b = true -> a < b.
Proof. apply py_gt_true. Qed.

Lemma insert_ascending_sorted kx l :
  ascending l -> ascending (insert_ascending kx l).
Proof.
  unfold ascending. induction 1 as [|ky l Hl IH Hky]; simpl.
  - repeat constructor.
  - destruct (py_lt (fst kx) (fst ky)) eqn:E.
    + apply py_lt_true in E. constructor; [by constructor|].
      constructor; [lra|].
      eapply Forall_impl; [exact Hky|]. simpl. intros. lra.
    + apply py_lt_false in E. constructor; [done|].
      rewrite (insert_ascending_perm kx l). by constructor.
  Qed.

Lemma fold_right_insert_ascending_sorted l :
  ascending (fold_right insert_ascending [] l).
Proof.
  induction l as [|kx l IH]; simpl; [constructor|].
  by apply insert_ascending_sorted.
Qed.

Lemma insertDescending_behind kx l :
  Forall (fun ky => py_gt (fst ky) (fst kx) = true) l ->
  Reference.insertDescending fst kx l = l ++ [kx].
Proof.
  induction 1 as [|ky l Hky _ IH]; simpl; [done|]. by rewrite Hky, IH.
Qed.

Lemma insertDescending_snoc kx ky l :
  py_gt (fst ky) (fst kx) = false ->
  Reference.insertDescending fst kx (l ++ [ky])
  = Reference.insertDescending fst kx l ++ [ky].
Proof.
  intros H. induction l as [|kz l IH]; simpl.
  - by rewrite H.
  - destruct (py_gt (fst kz) (fst kx)); [by rewrite IH | done].
Qed.

Lemma rev_insert_ascending kx l :
  ascending l ->
  rev (insert_ascending kx l) = Reference.insertDescending fst kx (rev l).
Proof.
  unfold ascending. induction 1 as [|ky l Hl IH Hky]; simpl; [done|].
  destruct (py_lt (fst kx) (fst ky)) eqn:E.
  - simpl. symmetry. rewrite <- app_assoc. simpl.
    rewrite (insertDescending_behind kx (rev l ++ [ky])).
    { by rewrite <- app_assoc. }
    apply Forall_app. split.
    + apply Forall_rev. eapply Forall_impl; [exact Hky|]. simpl.
      intros kz Hkz. apply py_gt_lt. apply py_lt_true in E. lra.
    + by repeat constructor.
  - simpl. rewrite IH. symmetry. by apply insertDescending_snoc.
Qed.

(** Reversing, sorting ascending and reversing again puts the elements in
    descending order with ties in their original order. *)
Lemma reversed_sort_descending l :
  rev (sort_ascending (rev l)) = Reference.sortDescending fst l.
Proof.
  unfold sort_ascending, Reference.sortDescending.
  rewrite <- (fold_left_rev_right (fun kx acc => insert_ascending kx acc)).
  rewrite rev_involutive.
  induction l as [|kx l IH]; simpl; [done|].
  rewrite rev_insert_ascending; [by rewrite IH|].
  apply fold_right_insert_ascending_sorted.
Qed.
End SortDescending.

Section Ordering.
Context {A : Type} (key : A -> Q).
Implicit Types (l : list A) (x : A).

Lemma insertDescending_perm x l : Reference.insertDescending key x l ≡ₚ x :: l.
Proof.
  induction l as [|y l IH]; simpl; [done|].
  destruct (py_gt _ _); [|done]. rewrite IH. apply Permutation_swap.
Qed.

Lemma sortDescending_perm l : Reference.sortDescending key l ≡ₚ l.
Proof.
  induction l as [|x l IH]; simpl; [done|].
  by rewrite insertDescending_perm, IH.
Qed.

Lemma insertDescending_sorted x l :
  descending key l -> descending key (Reference.insertDescending key x l).
Proof.
  unfold descending. induction 1 as [|y l Hl IH Hy]; simpl.
  - repeat constructor.
  - destruct (py_gt (key y) (key x)) eqn:E.
    + apply py_gt_true in E. constructor; [done|].
      rewrite (insertDescending_perm x l). constructor; [lra | done].
    + apply py_gt_false in E. constructor; [by constructor|].
      constructor; [done|].
      eapply Forall_impl; [exact Hy|]. simpl. intros. lra.
Qed.

Lemma sortDescending_sorted l : descending key (Reference.sortDescending key l).
Proof.
  induction l as [|x l IH]; simpl; [constructor|].
  by apply insertDescending_sorted.
Qed.


End Ordering.

Lemma sortDescending_Forall2 {A B : Type} (R : A -> B -> Prop)
    (key1 : A -> Q) (key2 : B -> Q) (l1 : list A) (l2 : list B) :
  (forall x y, R x y -> key1 x = key2 y) ->
  Forall2 R l1 l2 ->
  Forall2 R (Reference.sortDescending key1 l1) (Reference.sortDescending key2 l2).
Proof.
  intros Hkey. induction 1 as [|x y l1 l2 Hxy _ IH]; simpl; [constructor|].
  revert IH. generalize (Reference.sortDescending key1 l1)
                        (Reference.sortDescending key2 l2).
  induction 1 as [|x' y' k1 k2 Hxy' Hk IH]; simpl.
  - by repeat constructor.
  - rewrite (Hkey x y Hxy), (Hkey x' y' Hxy').
    destruct (py_gt (key2 y') (key2 y)); by repeat constructor.
Qed.

(** ** The planner against the reference algorithm *)

Lemma get_insert_ne (d : place) (k k' : string) (v dflt : value) :
  k <> k' -> get (<[k := v]> d) k' dflt = get d k' dflt.
Proof. intros H. unfold get. by rewrite lookup_insert_ne. Qed.

Lemma represents_insert (d : place) (P : Reference.Place) (k : string) (v : value) :
  k = "travel_from_start" \/ k = "score" \/ k = "approx_cost_pp" ->
  represents d P -> represents (<[k := v]> d) P.
Proof.
  intros Hk [H1 H2 H3 H4 H5 H6 H7].
  split; rewrite ?get_insert_ne, ?lookup_insert_ne; try done;
    destruct Hk as [->|[->| ->]]; done.
Qed.

Lemma compute_score_represents (d : place) (P : Reference.Place) (bpp t : Q) :
  represents d P -> compute_score d bpp t = Ok (Reference.score P bpp t).
Proof.
  intros [_ _ _ _ Htier Hpop _]. unfold compute_score, Reference.score.
  rewrite (approx_cost_of_tier d _ Htier). simpl.
  unfold get. rewrite Hpop.
  destruct (Reference.popularity P); simpl; by rewrite !py_max_Qmax.
Qed.

Lemma list_sort_reverse_Forall2 {A B : Type} (R : A -> B -> Prop)
    (key : A -> result Q) (skey : B -> Q) (es : list A) (cs : list B) :
  (forall e c, R e c -> key e = Ok (skey c)) ->
  Forall2 R es cs ->
  exists es', list_sort key true es = Ok es' /\
              Forall2 R es' (Reference.sortDescending skey cs).
Proof.
  intros Hkey HR. unfold list_sort.
  assert (mapM key es = Ok (map skey cs)) as ->.
  { apply mapM_Forall2. induction HR; simpl; constructor; auto. }
  simpl. eexists. split; [done|].
  rewrite reversed_sort_descending.
  apply Forall2_fmap_l.
  apply (Forall2_impl (fun (ke : Q * A) c => fst ke = skey c /\ R (snd ke) c));
    [|by intros ke c [_ H]].
  apply sortDescending_Forall2.
  - by intros ke c [H _].
  - induction HR; simpl; constructor; auto.
Qed.

Section Refinement.
Variable geodesic_km : value -> value -> value -> value -> result Q.
Variable distance : Reference.Coordinate -> Reference.Coordinate -> Q.
Variable pts : list Reference.Coordinate.
Hypothesis geodesic_distance : geodesic_on geodesic_km distance pts.

Lemma travel_time_min_travelTime (a b : Reference.Coordinate) :
  In a pts -> In b pts ->
  travel_time_min geodesic_km (VFloat (fst a)) (VFloat (snd a))
    (VFloat (fst b)) (VFloat (snd b)) default_speed
  = Ok (Reference.travelTime distance a b).
Proof using geodesic_distance.
  intros Ha Hb. unfold travel_time_min, distance_km.
  by rewrite (geodesic_distance a b Ha Hb).
Qed.

Lemma enrich_carries (start : Reference.Coordinate) (bpp : Q) (d : place)
    (P : Reference.Place) :
  In start pts -> In (Reference.coordinate P) pts ->
  represents d P ->
  exists e,
    enrich geodesic_km (VFloat (fst start)) (VFloat (snd start)) bpp d = Ok e /\
    carries e (Reference.enrichCandidate distance start bpp P).
Proof using geodesic_distance.
  intros Hstart HP Hrep. unfold enrich, getitem.
  rewrite (rep_lat _ _ Hrep), (rep_lon _ _ Hrep). simpl.
  rewrite (travel_time_min_travelTime start _ Hstart HP). simpl.
  rewrite (compute_score_represents d P _ _ Hrep). simpl.
  eexists. split; [done|]. split; simpl.
  - repeat (apply represents_insert; [tauto|]). done.
  - by rewrite lookup_insert_ne, lookup_insert_eq.
  - by rewrite lookup_insert_eq.
Qed.

Lemma visit_consider (people : Z) (st : Reference.BuilderState) (e : place)
    (c : Reference.Candidate) :
  In (Reference.currentPosition st) pts ->
  In (Reference.coordinate (Reference.candidate c)) pts ->
  carries e c ->
  visit geodesic_km people (state_of st) e
  = Ok (state_of (Reference.consider distance people st c)).
Proof using geodesic_distance.
  intros Hcur Hc [Hrep _ Hcost]. unfold visit, Reference.consider, getitem.
  rewrite Hcost. simpl.
  destruct (py_gt _ _); [done|].
  rewrite (rep_lat _ _ Hrep), (rep_lon _ _ Hrep). simpl.
  rewrite (travel_time_min_travelTime _ _ Hcur Hc). simpl.
  rewrite (estimate_visit_duration_labels e _ (rep_categories _ _ Hrep)).
  simpl.
  destruct (py_gt _ _); [done|].
  rewrite (rep_name _ _ Hrep). simpl.
  rewrite (rep_categories _ _ Hrep), (rep_photo_url _ _ Hrep).
  unfold state_of. simpl. by rewrite map_app.
Qed.

Lemma consider_position (people : Z) (st : Reference.BuilderState)
    (c : Reference.Candidate) :
  In (Reference.currentPosition st) pts ->
  In (Reference.coordinate (Reference.candidate c)) pts ->
  In (Reference.currentPosition (Reference.consider distance people st c)) pts.
Proof.
  intros Hcur Hc. unfold Reference.consider.
  repeat (destruct (py_gt _ _); [done|]). done.
Qed.

Lemma for_each_visit_consider (people : Z) (es : list place)
    (cs : list Reference.Candidate) (st : Reference.BuilderState) :
  Forall2 carries es cs ->
  Forall (fun c => In (Reference.coordinate (Reference.candidate c)) pts) cs ->
  In (Reference.currentPosition st) pts ->
  for_each (visit geodesic_km people) (state_of st) es
  = Ok (state_of (fold_left (Reference.consider distance people) cs st)).
Proof using geodesic_distance.
  intros H. revert st. induction H as [|e c es cs Hec _ IH]; intros st Hcs Hcur.
  - done.
  - inversion Hcs as [|? ? Hc Hcs']; subst. simpl.
    rewrite (visit_consider people st e c Hcur Hc Hec). simpl.
    apply IH; [done|]. by apply consider_position.
Qed.
End Refinement.

(** On places that carry typed records, and with a geodesic that is defined
    between the coordinates at hand, the planner returns the itinerary of
    the reference algorithm. *)
Lemma generate_refines
    (geodesic_km : value -> value -> value -> value -> result Q)
    (distance : Reference.Coordinate -> Reference.Coordinate -> Q)
    (selected_places : list place) (places : list Reference.Place)
    (start : Reference.Coordinate) (total_budget : Q) (people : Z) :
  Forall2 represents selected_places places ->
  geodesic_on geodesic_km distance (start :: map Reference.coordinate places) ->
  generate_itinerary_from_selected geodesic_km selected_places
    (VFloat (fst start)) (VFloat (snd start)) total_budget people
  = Ok (map stop_of
          (Reference.buildItinerary distance places start total_budget people)).
Proof.
  intros Hrep Hgeo.
  assert (Forall (fun P => In (Reference.coordinate P)
                             (start :: map Reference.coordinate places))
            places) as Hin.
  { apply Forall_forall. intros P HP%list_elem_of_In. right.
    by apply in_map. }
  assert (In start (start :: map Reference.coordinate places)) as Hstart
    by (by left).
  revert Hgeo Hin Hstart.
  generalize (start :: map Reference.coordinate places).
  intros pts Hgeo Hin Hstart.
  set (bpp := total_budget / inject_Z (Z.max 1 people)).
  set (cs := map (Reference.enrichCandidate distance start bpp) places).
  assert (exists es,
    mapM (enrich geodesic_km (VFloat (fst start)) (VFloat (snd start)) bpp)
      selected_places = Ok es /\ Forall2 carries es cs) as (es & Hes & Hcar).
  { subst cs. clear -Hrep Hgeo Hin Hstart.
    induction Hrep as [|d P ds Ps HdP _ IH].
    - by exists [].
    - inversion Hin as [|? ? HP Hin']; subst.
      destruct (enrich_carries geodesic_km distance pts Hgeo start bpp d P)
        as (e & He & Hcar); [done..|].
      destruct (IH Hin') as (es & Hes & Hcars).
      exists (e :: es). split; [|by constructor].
      simpl. rewrite He. simpl. rewrite Hes. done. }
  destruct (list_sort_reverse_Forall2 carries
              (fun x => getitem x "score" ≫= as_number)
              Reference.candidateScore es cs) as (es' & Hsort & Hcar');
    [|done|].
  { intros e c [_ Hscore _]. unfold getitem. by rewrite Hscore. }
  assert (Forall (fun c => In (Reference.coordinate (Reference.candidate c)) pts)
            (Reference.sortDescending Reference.candidateScore cs)) as Hin'.
  { apply Forall_forall. intros c Hc.
    rewrite (sortDescending_perm Reference.candidateScore cs) in Hc.
    apply list_elem_of_In in Hc. subst cs.
    apply in_map_iff in Hc as (P & <- & HP%list_elem_of_In). simpl.
    by apply (proj1 (Forall_forall _ _) Hin). }
  unfold generate_itinerary_from_selected, Reference.buildItinerary.
  destruct selected_places as [|d ds].
  { inversion Hrep; subst. done. }
  fold bpp. rewrite Hes. simpl. rewrite Hsort. simpl.
  pose proof (for_each_visit_consider geodesic_km distance pts Hgeo people es' _
                {| Reference.stops := [];
                   Reference.remainingBudget := total_budget;
                   Reference.currentPosition := start;
                   Reference.minutesUsed := 0 |} Hcar' Hin' Hstart) as Hloop.
  unfold state_of at 1 in Hloop. simpl in Hloop. by rewrite Hloop.
Qed.



Lemma grid_km_distance (pts : list Reference.Coordinate) :
  geodesic_on grid_km grid_distance pts.
Proof. intros a b _ _. reflexivity. Qed.


(** The palace scores above the diner and is too dear for what the garden
    left of the budget; the scan goes on and takes the diner. *)
Example skipped_candidate_does_not_end_the_scan :
  map Reference.displayName
    (map Reference.candidate
       (Reference.sortDescending Reference.candidateScore
          (map (Reference.enrichCandidate grid_distance start (2000 / 2))
               [Diner; Palace; Garden])))
  = ["Garden"; "Palace"; "Diner"] /\
  map name
    match generate_itinerary_from_selected grid_km [diner; palace; garden]
            start_lat start_lon 2000 2 with
    | Ok it => it
    | Raise _ => []
    end
  = [VStr "Garden"; VStr "Diner"].
Proof. split; vm_compute; reflexivity. Qed.

(** ** No good answer *)

Lemma fold_left_consider_skip
    (distance : Reference.Coordinate -> Reference.Coordinate -> Q)
    (people : Z) (cs : list Reference.Candidate) (st : Reference.BuilderState) :
  Forall (fun c => Reference.consider distance people st c = st) cs ->
  fold_left (Reference.consider distance people) cs st = st.
Proof. induction 1 as [|c cs Hc _ IH]; simpl; [done | by rewrite Hc]. Qed.

Lemma buildItinerary_infeasible
    (distance : Reference.Coordinate -> Reference.Coordinate -> Q)
    (places : list Reference.Place) (start : Reference.Coordinate)
    (total_budget : Q) (people : Z) :
  Forall (infeasible distance start total_budget people) places ->
  Reference.buildItinerary distance places start total_budget people = [].
Proof.
  intros H. unfold Reference.buildItinerary.
  rewrite fold_left_consider_skip; [done|].
  apply Forall_forall. intros c Hc.
  rewrite sortDescending_perm in Hc.
  apply list_elem_of_In, in_map_iff in Hc as (P & <- & HP%list_elem_of_In).
  apply (proj1 (Forall_forall _ _) H) in HP.
  unfold Reference.consider. simpl.
  destruct HP as [Hb|Ht].
  - by rewrite (py_gt_lt _ _ Hb).
  - rewrite (py_gt_lt _ _ Ht). by destruct (py_gt _ _).
Qed.

(** C7. An empty list of places gives the empty itinerary. So does a list
    of places, carried by well-formed records, none of which passes the
    budget gate or the time gate: the planner returns the empty itinerary
    and raises nothing. *)
Theorem no_answer_is_empty_itinerary
    (geodesic_km : value -> value -> value -> value -> result Q)
    (distance : Reference.Coordinate -> Reference.Coordinate -> Q)
    (selected_places : list place) (places : list Reference.Place)
    (start : Reference.Coordinate) (total_budget : Q) (people : Z) :
  Forall2 represents selected_places places ->
  geodesic_on geodesic_km distance (start :: map Reference.coordinate places) ->
  Forall (infeasible distance start total_budget people) places ->
  generate_itinerary_from_selected geodesic_km selected_places
    (VFloat (fst start)) (VFloat (snd start)) total_budget people = Ok [] /\
  forall start_lat start_lon : value,
    generate_itinerary_from_selected geodesic_km []
      start_lat start_lon total_budget people = Ok [].
Proof.
  intros Hrep Hgeo Hinf. split; [|done].
  rewrite (generate_refines geodesic_km distance selected_places places);
    [|done..].
  by rewrite buildItinerary_infeasible.
Qed.

(** The palace alone: 1200 a head for two is more than the 2000 there are. *)
Lemma no_answer_is_empty_itinerary_witness :
  generate_itinerary_from_selected grid_km [palace] start_lat start_lon 2000 2
  = Ok [].
Proof.
  apply (no_answer_is_empty_itinerary grid_km grid_distance [palace] [Palace]
           start 2000 2).
  - repeat constructor.
  - apply grid_km_distance.
  - constructor; [|constructor]. left. reflexivity.
Defined.

(** ** Where a stop comes from *)

Lemma stop_from_ext (p e : place) (s : Stop) :
  (forall k, k <> "travel_from_start" -> k <> "score" -> k <> "approx_cost_pp" ->
             e !! k = p !! k) ->
  stop_from e s -> stop_from p s.
Proof.
  intros Hk [H1 H2 H3 H4 H5 H6].
  unfold estimate_visit_duration, getitem, get in *.
  split; unfold estimate_visit_duration, getitem, get;
    rewrite <- Hk by done; done.
Qed.

Section Provenance.
Variable geodesic_km : value -> value -> value -> value -> result Q.

Lemma enrich_Ok_lookup (start_lat start_lon : value) (bpp : Q) (p e : place)
    (k : string) :
  enrich geodesic_km start_lat start_lon bpp p = Ok e ->
  k <> "travel_from_start" -> k <> "score" -> k <> "approx_cost_pp" ->
  e !! k = p !! k.
Proof.
  unfold enrich. intros H H1 H2 H3.
  apply bind_Ok in H as (plat & _ & H). apply bind_Ok in H as (plon & _ & H).
  apply bind_Ok in H as (t & _ & H). apply bind_Ok in H as (sc & _ & H).
  injection H as <-. by rewrite !lookup_insert_ne.
Qed.

(** Every stop of a returned itinerary was built from one of the places of
    the input. *)
Lemma stops_come_from_places (selected_places : list place)
    (start_lat start_lon : value) (total_budget : Q) (people : Z)
    (it : list Stop) :
  generate_itinerary_from_selected geodesic_km selected_places
    start_lat start_lon total_budget people = Ok it ->
  Forall (fun s => exists p, In p selected_places /\ stop_from p s) it.
Proof.
  intros H.
  apply generate_Ok in H as (enriched & ordered & st & Henr & Hperm & Hloop & <-).
  assert (Forall (fun s => exists e, In e ordered /\ stop_from e s)
            (itinerary st)) as Hst.
  { eapply (for_each_invariant _
              (fun st => Forall (fun s => exists e, In e ordered /\ stop_from e s)
                           (itinerary st))); [|..|exact Hloop].
    - intros st0 e st1 He Hst0 Hvisit.
      apply visit_Ok in Hvisit as [->|(s & Hacc)]; [done|].
      rewrite (acc_itinerary _ _ _ _ _ Hacc).
      apply Forall_app. split; [done|]. constructor; [|constructor].
      exists e. split; [done|]. by destruct Hacc.
    - constructor. }
  eapply Forall_impl; [exact Hst|]. simpl.
  intros s (e & He & Hfrom).
  apply list_elem_of_In in He. rewrite Hperm in He. apply list_elem_of_In in He.
  destruct (Forall2_In_r _ _ _ _ Henr He) as (p & Hp & Hpe).
  exists p. split; [done|].
  apply (stop_from_ext p e); [|done].
  intros k. by apply enrich_Ok_lookup with (1 := Hpe).
Qed.

Lemma estimate_visit_duration_no_categories (p : place) :
  p !! "categories" = None -> estimate_visit_duration p = Ok 45%Z.
Proof. intros H. unfold estimate_visit_duration, get. by rewrite H. Qed.
End Provenance.

(** C10. A place without the ["categories"] key is given 45 minutes by
    [estimate_visit_duration]. A stop of a returned itinerary was built
    from a place of the input, with that place's name and coordinates, and
    when the place has no ["categories"] key the stop's categories are the
    empty list and its duration is 45. On places without the key that are
    otherwise well-formed the planner returns an itinerary and raises
    nothing. *)
Theorem missing_categories_are_empty
    (geodesic_km : value -> value -> value -> value -> result Q)
    (distance : Reference.Coordinate -> Reference.Coordinate -> Q)
    (selected_places : list place) (places : list Reference.Place)
    (start : Reference.Coordinate) (total_budget : Q) (people : Z) :
  Forall2 represents selected_places places ->
  geodesic_on geodesic_km distance (start :: map Reference.coordinate places) ->
  Forall (fun p : place => p !! "categories" = None) selected_places ->
  (forall p : place,
     p !! "categories" = None -> estimate_visit_duration p = Ok 45%Z) /\
  (exists it,
     generate_itinerary_from_selected geodesic_km selected_places
       (VFloat (fst start)) (VFloat (snd start)) total_budget people = Ok it /\
     Forall (fun s => categories s = VList [] /\ duration s = 45%Z) it) /\
  (forall (ps : list place) (start_lat start_lon : value) (it : list Stop),
     generate_itinerary_from_selected geodesic_km ps
       start_lat start_lon total_budget people = Ok it ->
     Forall (fun s => exists p,
               In p ps /\ stop_from p s /\
               (p !! "categories" = None ->
                categories s = VList [] /\ duration s = 45%Z)) it).
Proof.
  intros Hrep Hgeo Hnone.
  assert (forall (ps : list place) (start_lat start_lon : value) (it : list Stop),
     generate_itinerary_from_selected geodesic_km ps
       start_lat start_lon total_budget people = Ok it ->
     Forall (fun s => exists p,
               In p ps /\ stop_from p s /\
               (p !! "categories" = None ->
                categories s = VList [] /\ duration s = 45%Z)) it) as Hfrom.
  { intros ps slat slon it H.
    apply stops_come_from_places in H.
    eapply Forall_impl; [exact H|]. simpl.
    intros s (p & Hp & Hs). exists p.
    split; [done|]. split; [done|]. intros Hcat. split.
    - rewrite (from_categories _ _ Hs). unfold get. by rewrite Hcat.
    - pose proof (from_duration _ _ Hs) as Hd.
      rewrite (estimate_visit_duration_no_categories p Hcat) in Hd.
      congruence. }
  split; [apply estimate_visit_duration_no_categories|]. split; [|done].
  eexists. split; [by apply generate_refines|].
  specialize (Hfrom _ _ _ _ (generate_refines geodesic_km distance
                               selected_places places start total_budget people
                               Hrep Hgeo)).
  eapply Forall_impl; [exact Hfrom|]. simpl.
  intros s (p & Hp%list_elem_of_In & _ & Hs). apply Hs.
  by apply (proj1 (Forall_forall _ _) Hnone).
Qed.

Lemma missing_categories_are_empty_witness :
  exists it,
    generate_itinerary_from_selected grid_km [kiosk] start_lat start_lon 2000 2
    = Ok it /\
    Forall (fun s => categories s = VList [] /\ duration s = 45%Z) it.
Proof.
  apply (missing_categories_are_empty grid_km grid_distance [kiosk] [Kiosk]
           start 2000 2).
  - repeat constructor.
  - apply grid_km_distance.
  - repeat constructor.
Defined.

(** * Further properties of the planner *)

(** ** Travel is measured from the stop before *)

Lemma last_position_snoc (from_lat from_lon : value) (it : list Stop) (s : Stop) :
  last_position from_lat from_lon (it ++ [s]) = (lat s, lon s).
Proof. unfold last_position. by rewrite last_snoc. Qed.

Lemma chained_snoc
    (geodesic_km : value -> value -> value -> value -> result Q)
    (from_lat from_lon : value) (it : list Stop) (s : Stop) :
  chained geodesic_km from_lat from_lon it ->
  travel_time_min geodesic_km
    (fst (last_position from_lat from_lon it))
    (snd (last_position from_lat from_lon it)) (lat s) (lon s) default_speed
  = Ok (travel_time s) ->
  chained geodesic_km from_lat from_lon (it ++ [s]).
Proof.
  revert from_lat from_lon. induction it as [|s0 it IH]; intros a b Hc Ht.
  - simpl. split; [exact Ht | done].
  - destruct Hc as [H0 Hc]. simpl. split; [done|]. apply IH; [done|].
    unfold last_position in *. destruct it as [|s1 it]; [done|].
    rewrite last_cons_cons in Ht.
    destruct (last (s1 :: it)) eqn:E; [done|].
    apply last_None in E. discriminate.
Qed.

Section Chain.
Variable geodesic_km : value -> value -> value -> value -> result Q.

(** An accepted stop carries the travel time from where the loop stood. *)
Lemma visit_Ok_travel (people : Z) (st st' : loop_state) (p : place) :
  visit geodesic_km people st p = Ok st' ->
  st' = st \/
  exists s,
    itinerary st' = itinerary st ++ [s] /\
    current_lat st' = lat s /\ current_lon st' = lon s /\
    travel_time_min geodesic_km (current_lat st) (current_lon st)
      (lat s) (lon s) default_speed = Ok (travel_time s).
Proof.
  unfold visit. intros H.
  apply bind_Ok in H as (c & Hc & H).
  destruct (py_gt _ _) in H.
  { injection H as <-. by left. }
  apply bind_Ok in H as (plat & Hlat & H).
  apply bind_Ok in H as (plon & Hlon & H).
  apply bind_Ok in H as (t & Ht & H).
  apply bind_Ok in H as (d & Hd & H).
  destruct (py_gt _ _) in H.
  { injection H as <-. by left. }
  apply bind_Ok in H as (pname & Hname & H).
  injection H as <-. right. eexists. simpl. done.
Qed.

(** X1. In a returned itinerary the travel time of the first stop is the
    travel time from the start, and the travel time of every later stop is
    the travel time from the stop before it, at the default speed. *)
Theorem travel_times_are_chained (selected_places : list place)
    (start_lat start_lon : value) (total_budget : Q) (people : Z)
    (it : list Stop) :
  generate_itinerary_from_selected geodesic_km selected_places
    start_lat start_lon total_budget people = Ok it ->
  chained geodesic_km start_lat start_lon it.
Proof.
  intros H.
  apply generate_Ok in H as (enriched & ordered & st & _ & _ & Hloop & <-).
  assert (chained geodesic_km start_lat start_lon (itinerary st) /\
          (current_lat st, current_lon st)
          = last_position start_lat start_lon (itinerary st)) as [Hc _];
    [|done].
  eapply (for_each_invariant _
            (fun st => chained geodesic_km start_lat start_lon (itinerary st) /\
                       (current_lat st, current_lon st)
                       = last_position start_lat start_lon (itinerary st)));
    [|..|exact Hloop].
  - intros st0 e st1 _ [Hc Hpos] Hvisit.
    apply visit_Ok_travel in Hvisit as [->|(s & Hit & Hlat & Hlon & Ht)];
      [done|].
    rewrite Hit, last_position_snoc, Hlat, Hlon. split; [|done].
    apply chained_snoc; [done|]. by rewrite <- Hpos.
  - done.
Qed.
End Chain.

Lemma travel_times_are_chained_witness :
  exists it,
    generate_itinerary_from_selected grid_km [garden; palace; diner]
      start_lat start_lon 2000 2 = Ok it /\
    chained grid_km start_lat start_lon it.
Proof.
  eexists. split; [vm_compute; reflexivity|].
  apply (travel_times_are_chained grid_km [garden; palace; diner]
           start_lat start_lon 2000 2).
  vm_compute. reflexivity.
Defined.

(** ** The itinerary follows the ranking *)

Lemma insertDescending_map {A B : Type} (key1 : A -> Q) (key2 : B -> Q)
    (f : A -> B) (x : A) (l : list A) :
  (forall x, key2 (f x) = key1 x) ->
  Reference.insertDescending key2 (f x) (map f l)
  = map f (Reference.insertDescending key1 x l).
Proof.
  intros Hkey. induction l as [|y l IH]; simpl; [done|].
  rewrite !Hkey. destruct (py_gt _ _); simpl; [by rewrite IH | done].
Qed.

Lemma sortDescending_map {A B : Type} (key1 : A -> Q) (key2 : B -> Q)
    (f : A -> B) (l : list A) :
  (forall x, key2 (f x) = key1 x) ->
  Reference.sortDescending key2 (map f l)
  = map f (Reference.sortDescending key1 l).
Proof.
  intros Hkey. induction l as [|x l IH]; simpl; [done|].
  by rewrite IH, (insertDescending_map key1 key2).
Qed.

Lemma descending_map {A B : Type} (key1 : A -> Q) (key2 : B -> Q)
    (f : A -> B) (l : list A) :
  (forall x, key2 (f x) = key1 x) ->
  descending key1 l -> descending key2 (map f l).
Proof.
  intros Hkey. unfold descending.
  induction 1 as [|x l _ IH Hx]; simpl; constructor; [done|].
  apply Forall_map. eapply Forall_impl; [exact Hx|]. simpl. intros y Hy.
  by rewrite !Hkey.
Qed.

Lemma descending_sublist {A : Type} (key : A -> Q) (l1 l2 : list A) :
  l1 `sublist_of` l2 -> descending key l2 -> descending key l1.
Proof.
  unfold descending. induction 1 as [|x l1 l2 Hsub IH|x l1 l2 Hsub IH];
    intros Hs; [done|..].
  - apply StronglySorted_inv in Hs as [Hs Hx]. constructor; [by apply IH|].
    apply Forall_forall. intros y Hy.
    apply (proj1 (Forall_forall _ _) Hx). by eapply elem_of_sublist.
  - apply StronglySorted_inv in Hs as [Hs _]. by apply IH.
Qed.

Lemma sublist_map {A B : Type} (f : A -> B) (l1 l2 : list A) :
  l1 `sublist_of` l2 -> map f l1 `sublist_of` map f l2.
Proof. induction 1; simpl; by constructor. Qed.

Section Ranking.
Variable geodesic_km : value -> value -> value -> value -> result Q.

Lemma list_sort_reverse_eq (es : list place) (keys : list Q) :
  mapM sort_key es = Ok keys ->
  list_sort sort_key true es
  = Ok (map snd (Reference.sortDescending fst (combine keys es))).
Proof.
  intros H. unfold list_sort. rewrite H. simpl.
  by rewrite reversed_sort_descending.
Qed.

(** A run that returns: the enriched places, their sort keys, and the loop
    over them in descending order of the keys. *)
Lemma generate_Ok_sorted (selected_places : list place)
    (start_lat start_lon : value) (total_budget : Q) (people : Z)
    (it : list Stop) :
  generate_itinerary_from_selected geodesic_km selected_places
    start_lat start_lon total_budget people = Ok it ->
  exists (enriched : list place) (keys : list Q) (st : loop_state),
    Forall2 (fun p e =>
               enrich geodesic_km start_lat start_lon
                 (total_budget / inject_Z (Z.max 1 people)) p = Ok e)
            selected_places enriched /\
    Forall2 (fun e k => sort_key e = Ok k) enriched keys /\
    for_each (visit geodesic_km people)
      (initial_state start_lat start_lon total_budget)
      (map snd (Reference.sortDescending fst (combine keys enriched))) = Ok st /\
    itinerary st = it.
Proof.
  unfold generate_itinerary_from_selected. intros H.
  destruct selected_places as [|p ps].
  { injection H as <-.
    exists [], [], (initial_state start_lat start_lon total_budget).
    repeat split; constructor. }
  apply bind_Ok in H as (enriched & Henr & H).
  apply bind_Ok in H as (ordered & Hord & H).
  apply bind_Ok in H as (st & Hst & H). injection H as <-.
  fold sort_key in Hord.
  destruct (mapM sort_key enriched) as [keys|e] eqn:Hkeys.
  - rewrite (list_sort_reverse_eq enriched keys Hkeys) in Hord.
    injection Hord as <-.
    exists enriched, keys, st. repeat split; try done; by apply mapM_Ok.
  - unfold list_sort in Hord. rewrite Hkeys in Hord. discriminate.
Qed.

Lemma enrich_Ok_scored (start_lat start_lon : value) (bpp : Q) (p e : place)
    (k : Q) :
  enrich geodesic_km start_lat start_lon bpp p = Ok e ->
  sort_key e = Ok k ->
  scored geodesic_km start_lat start_lon bpp p k.
Proof.
  unfold enrich, sort_key. intros H Hk.
  apply bind_Ok in H as (plat & Hlat & H). apply bind_Ok in H as (plon & Hlon & H).
  apply bind_Ok in H as (t & Ht & H). apply bind_Ok in H as ([sc c] & Hsc & H).
  injection H as <-. unfold getitem in Hk.
  rewrite lookup_insert_ne, lookup_insert_eq in Hk by done.
  simpl in Hk. injection Hk as <-.
  by exists plat, plon, t, c.
Qed.

(** The loop takes its stops from a sub-list of the candidates, in order. *)
Lemma for_each_visit_sublist {T : Type} (f : T -> place) (people : Z)
    (ts : list T) (st st' : loop_state) :
  for_each (visit geodesic_km people) st (map f ts) = Ok st' ->
  exists (taken : list T) (stops : list Stop),
    taken `sublist_of` ts /\
    itinerary st' = itinerary st ++ stops /\
    Forall2 (fun t s => stop_from (f t) s) taken stops.
Proof.
  revert st. induction ts as [|t ts IH]; intros st H; simpl in H.
  - injection H as <-. exists [], []. rewrite app_nil_r.
    repeat split; constructor.
  - apply bind_Ok in H as (st1 & Hvisit & H).
    destruct (IH st1 H) as (taken & stops & Hsub & Hit & Hfrom).
    apply visit_Ok in Hvisit as [->|(s & Hacc)].
    + exists taken, stops. repeat split; [by constructor|done..].
    + exists (t :: taken), (s :: stops). split; [by constructor|]. split.
      * rewrite Hit, (acc_itinerary _ _ _ _ _ Hacc), <- app_assoc. done.
      * constructor; [|done]. by destruct Hacc.
Qed.

(** The places with their scores in the order of the scan, and the ones
    among them that became stops. *)
Lemma generate_ranking (selected_places : list place)
    (start_lat start_lon : value) (total_budget : Q) (people : Z)
    (it : list Stop) :
  generate_itinerary_from_selected geodesic_km selected_places
    start_lat start_lon total_budget people = Ok it ->
  exists ranked chosen : list (place * Q),
    map fst ranked ≡ₚ selected_places /\
    Forall (fun pq =>
              scored geodesic_km start_lat start_lon
                (total_budget / inject_Z (Z.max 1 people)) (fst pq) (snd pq))
           ranked /\
    descending snd ranked /\
    chosen `sublist_of` ranked /\
    Forall2 (fun pq s => stop_from (fst pq) s) chosen it.
Proof.
  intros H.
  apply generate_Ok_sorted in H as (enriched & keys & st & Henr & Hkeys & Hloop & <-).
  set (bpp := total_budget / inject_Z (Z.max 1 people)) in *.
  (* the places, their enriched records and their keys, side by side *)
  assert (exists ts : list (Q * (place * place)),
            map (fun t => fst (snd t)) ts = selected_places /\
            map (fun t => (fst t, snd (snd t))) ts = combine keys enriched /\
            Forall (fun t =>
                      enrich geodesic_km start_lat start_lon bpp (fst (snd t))
                      = Ok (snd (snd t)) /\
                      sort_key (snd (snd t)) = Ok (fst t)) ts)
    as (ts & Hps & Hke & Hts).
  { clear Hloop. revert keys Hkeys.
    induction Henr as [|p e ps es Hpe _ IH]; intros keys Hkeys.
    - inversion Hkeys; subst. by exists [].
    - inversion Hkeys as [|? k ? ks Hk Hks]; subst.
      destruct (IH ks Hks) as (ts & Hps & Hke & Hts).
      exists ((k, (p, e)) :: ts). simpl. rewrite Hps, Hke.
      repeat split; try done. by constructor. }
  set (sorted := Reference.sortDescending fst ts).
  assert (map snd (Reference.sortDescending fst (combine keys enriched))
          = map (fun t => snd (snd t)) sorted) as Hsorted.
  { rewrite <- Hke. subst sorted.
    rewrite (sortDescending_map fst fst (fun t => (fst t, snd (snd t)))) by done.
    by rewrite map_map. }
  rewrite Hsorted in Hloop.
  apply for_each_visit_sublist in Hloop as (taken & stops & Hsub & Hit & Hfrom).
  simpl in Hit. subst stops.
  assert (forall t, In t sorted ->
            enrich geodesic_km start_lat start_lon bpp (fst (snd t))
            = Ok (snd (snd t)) /\
            sort_key (snd (snd t)) = Ok (fst t)) as Hin.
  { intros t Ht%list_elem_of_In. subst sorted.
    rewrite sortDescending_perm in Ht.
    by apply (proj1 (Forall_forall _ _) Hts). }
  exists (map (fun t => (fst (snd t), fst t)) sorted),
         (map (fun t => (fst (snd t), fst t)) taken).
  split; [|split; [|split; [|split]]].
  - rewrite map_map. simpl. rewrite <- Hps. apply Permutation_map.
    apply sortDescending_perm.
  - apply Forall_map, Forall_forall. intros t Ht%list_elem_of_In.
    destruct (Hin t Ht) as [He Hk]. simpl. by eapply enrich_Ok_scored.
  - apply (descending_map fst); [done|]. apply sortDescending_sorted.
  - by apply sublist_map.
  - apply Forall2_fmap_l.
    assert (Forall (fun t => In t sorted) taken) as Htaken.
    { apply Forall_forall. intros t Ht. apply list_elem_of_In.
      by eapply elem_of_sublist. }
    clear Hsub. induction Hfrom as [|t s taken stops Hts' _ IH];
      [constructor|].
    inversion Htaken as [|? ? Ht Htaken']; subst.
    constructor; [|by apply IH]. simpl.
    destruct (Hin t Ht) as [He _].
    apply (stop_from_ext _ (snd (snd t))); [|done].
    intros k. by apply enrich_Ok_lookup with (1 := He).
Qed.

(** X2. The stops of a returned itinerary come in non-increasing order of
    the scores of their places: each stop was built from a place of the
    input, and the scores that the first pass gave these places never
    increase along the itinerary. *)
Theorem stops_in_score_order (selected_places : list place)
    (start_lat start_lon : value) (total_budget : Q) (people : Z)
    (it : list Stop) :
  generate_itinerary_from_selected geodesic_km selected_places
    start_lat start_lon total_budget people = Ok it ->
  exists chosen : list (place * Q),
    Forall2 (fun pq s => stop_from (fst pq) s) chosen it /\
    Forall (fun pq =>
              In (fst pq) selected_places /\
              scored geodesic_km start_lat start_lon
                (total_budget / inject_Z (Z.max 1 people)) (fst pq) (snd pq))
           chosen /\
    descending snd chosen.
Proof.
  intros H.
  apply generate_ranking in H
    as (ranked & chosen & Hperm & Hscored & Hdesc & Hsub & Hfrom).
  exists chosen. split; [done|]. split.
  - apply Forall_forall. intros pq Hpq.
    pose proof (elem_of_sublist _ _ _ Hpq Hsub) as Hr. split.
    + apply list_elem_of_In. rewrite <- Hperm.
      apply list_elem_of_In, in_map, list_elem_of_In, Hr.
    + by apply (proj1 (Forall_forall _ _) Hscored).
  - by apply (descending_sublist snd chosen ranked).
Qed.

(** X3. No place is visited twice: the places of the stops, in itinerary
    order, are a sub-list of a rearrangement of the input list, so an
    itinerary has at most as many stops as there are places. *)
Theorem each_place_at_most_once (selected_places : list place)
    (start_lat start_lon : value) (total_budget : Q) (people : Z)
    (it : list Stop) :
  generate_itinerary_from_selected geodesic_km selected_places
    start_lat start_lon total_budget people = Ok it ->
  (exists order chosen : list place,
     order ≡ₚ selected_places /\
     chosen `sublist_of` order /\
     Forall2 stop_from chosen it) /\
  (length it <= length selected_places)%nat.
Proof.
  intros H.
  apply generate_ranking in H
    as (ranked & chosen & Hperm & _ & _ & Hsub & Hfrom).
  assert (map fst chosen `sublist_of` map fst ranked) as Hsub'
    by by apply sublist_map.
  assert (Forall2 stop_from (map fst chosen) it) as Hfrom'
    by by apply Forall2_fmap_l.
  split; [by exists (map fst ranked), (map fst chosen)|].
  rewrite <- (Forall2_length _ _ _ Hfrom'), <- (Permutation_length Hperm).
  by apply sublist_length.
Qed.
End Ranking.

Lemma stops_in_score_order_witness :
  exists it,
    generate_itinerary_from_selected grid_km [diner; palace; garden]
      start_lat start_lon 2000 2 = Ok it /\
    exists chosen : list (place * Q),
      Forall2 (fun pq s => stop_from (fst pq) s) chosen it /\
      descending snd chosen.
Proof.
  eexists. split; [vm_compute; reflexivity|].
  destruct (stops_in_score_order grid_km [diner; palace; garden]
              start_lat start_lon 2000 2 _ ltac:(vm_compute; reflexivity))
    as (chosen & Hfrom & _ & Hdesc).
  by exists chosen.
Defined.

Lemma each_place_at_most_once_witness :
  exists it,
    generate_itinerary_from_selected grid_km [diner; palace; garden]
      start_lat start_lon 2000 2 = Ok it /\
    (length it <= 3)%nat.
Proof.
  eexists. split; [vm_compute; reflexivity|].
  apply (each_place_at_most_once grid_km [diner; palace; garden]
           start_lat start_lon 2000 2).
  vm_compute. reflexivity.
Defined.

(** ** A feasible place gives a stop *)

Lemma py_gt_le (a b : Q) : a <= b -> py_gt a b = false.
Proof.
  intros H. pose proof (py_gt_spec a b) as S.
  destruct (py_gt a b); [lra | done].
Qed.

Section NonEmpty.
Variable distance : Reference.Coordinate -> Reference.Coordinate -> Q.

Lemma consider_stops (people : Z) (st : Reference.BuilderState)
    (c : Reference.Candidate) :
  Reference.consider distance people st c = st \/
  exists s,
    Reference.stops (Reference.consider distance people st c)
    = Reference.stops st ++ [s].
Proof.
  unfold Reference.consider.
  repeat (destruct (py_gt _ _); [by left|]). right. by eexists.
Qed.

Lemma fold_left_consider_keeps_stops (people : Z)
    (cs : list Reference.Candidate) (st : Reference.BuilderState) :
  Reference.stops st <> [] ->
  Reference.stops (fold_left (Reference.consider distance people) cs st) <> [].
Proof.
  revert st. induction cs as [|c cs IH]; intros st Hst; simpl; [done|].
  apply IH. destruct (consider_stops people st c) as [->|[s ->]]; [done|].
  by destruct (Reference.stops st).
Qed.

Lemma consider_feasible (start : Reference.Coordinate) (total_budget bpp : Q)
    (people : Z) (P : Reference.Place) :
  feasible distance start total_budget people P ->
  Reference.stops
    (Reference.consider distance people
       {| Reference.stops := [];
          Reference.remainingBudget := total_budget;
          Reference.currentPosition := start;
          Reference.minutesUsed := 0 |}
       (Reference.enrichCandidate distance start bpp P)) <> [].
Proof.
  intros [Hb Ht]. unfold Reference.consider. simpl.
  by rewrite (py_gt_le _ _ Hb), (py_gt_le _ _ Ht).
Qed.

Lemma buildItinerary_feasible (places : list Reference.Place)
    (start : Reference.Coordinate) (total_budget : Q) (people : Z) :
  Exists (feasible distance start total_budget people) places ->
  Reference.buildItinerary distance places start total_budget people <> [].
Proof.
  intros H. unfold Reference.buildItinerary.
  set (bpp := total_budget / inject_Z (Z.max 1 people)).
  set (init := {| Reference.stops := [];
                  Reference.remainingBudget := total_budget;
                  Reference.currentPosition := start;
                  Reference.minutesUsed := 0 |}).
  assert (Exists (fun c => Reference.stops
                             (Reference.consider distance people init c) <> [])
            (Reference.sortDescending Reference.candidateScore
               (map (Reference.enrichCandidate distance start bpp) places)))
    as Hex.
  { apply Exists_exists in H as (P & HP & Hf).
    apply Exists_exists.
    exists (Reference.enrichCandidate distance start bpp P). split.
    - rewrite sortDescending_perm. apply list_elem_of_In, in_map.
      by apply list_elem_of_In.
    - by apply consider_feasible. }
  clear H. induction Hex as [c cs Hc|c cs _ IH]; simpl.
  - by apply fold_left_consider_keeps_stops.
  - destruct (consider_stops people init c) as [->|[s Hs]]; [done|].
    apply fold_left_consider_keeps_stops. rewrite Hs. done.
Qed.
End NonEmpty.

(** X4. When at least one of the places, carried by well-formed records,
    passes the budget gate and the time gate on its own from the start,
    the planner returns an itinerary with at least one stop. *)
Theorem feasible_place_gives_a_stop
    (geodesic_km : value -> value -> value -> value -> result Q)
    (distance : Reference.Coordinate -> Reference.Coordinate -> Q)
    (selected_places : list place) (places : list Reference.Place)
    (start : Reference.Coordinate) (total_budget : Q) (people : Z) :
  Forall2 represents selected_places places ->
  geodesic_on geodesic_km distance (start :: map Reference.coordinate places) ->
  Exists (feasible distance start total_budget people) places ->
  exists s it,
    generate_itinerary_from_selected geodesic_km selected_places
      (VFloat (fst start)) (VFloat (snd start)) total_budget people
    = Ok (s :: it).
Proof.
  intros Hrep Hgeo Hex.
  rewrite (generate_refines geodesic_km distance selected_places places);
    [|done..].
  pose proof (buildItinerary_feasible distance places start total_budget people
                Hex) as Hne.
  destruct (Reference.buildItinerary distance places start total_budget people)
    as [|s it]; [done|].
  by exists (stop_of s), (map stop_of it).
Qed.

Lemma feasible_place_gives_a_stop_witness :
  exists s it,
    generate_itinerary_from_selected grid_km [palace; diner]
      start_lat start_lon 2000 2 = Ok (s :: it).
Proof.
  apply (feasible_place_gives_a_stop grid_km grid_distance
           [palace; diner] [Palace; Diner] start 2000 2).
  - repeat constructor.
  - apply grid_km_distance.
  - apply Exists_cons_tl, Exists_cons_hd. split; vm_compute; discriminate.
Defined.

(** ** Keys that the planner does not read *)

Lemma getitem_same (p p' : place) (k : string) :
  p !! k = p' !! k -> getitem p k = getitem p' k.
Proof. unfold getitem. by intros ->. Qed.

Lemma get_same (p p' : place) (k : string) (dflt : value) :
  p !! k = p' !! k -> get p k dflt = get p' k dflt.
Proof. unfold get. by intros ->. Qed.

Lemma compute_score_same (p p' : place) (bpp t : Q) :
  p !! "popularity" = p' !! "popularity" ->
  p !! "price_tier" = p' !! "price_tier" ->
  compute_score p bpp t = compute_score p' bpp t.
Proof.
  intros Hpop Htier. unfold compute_score.
  by rewrite (get_same p p' "popularity" _ Hpop),
             (get_same p p' "price_tier" _ Htier).
Qed.

Lemma estimate_visit_duration_same (p p' : place) :
  p !! "categories" = p' !! "categories" ->
  estimate_visit_duration p = estimate_visit_duration p'.
Proof.
  intros H. unfold estimate_visit_duration.
  by rewrite (get_same p p' "categories" _ H).
Qed.

Lemma mapM_rel {A B : Type} (R : A -> A -> Prop) (S : B -> B -> Prop)
    (f g : A -> result B) (l l' : list A) :
  (forall x x', R x x' ->
     match f x, g x' with
     | Ok y, Ok y' => S y y'
     | Raise e, Raise e' => e = e'
     | _, _ => False
     end) ->
  Forall2 R l l' ->
  match mapM f l, mapM g l' with
  | Ok k, Ok k' => Forall2 S k k'
  | Raise e, Raise e' => e = e'
  | _, _ => False
  end.
Proof.
  intros Hfg. induction 1 as [|x x' l l' Hx _ IH]; simpl; [constructor|].
  specialize (Hfg x x' Hx).
  destruct (f x) as [y|e], (g x') as [y'|e']; simpl; try done.
  destruct (mapM f l) as [k|e], (mapM g l') as [k'|e']; simpl; try done.
  by constructor.
Qed.

Section UnreadKeys.
Variable geodesic_km : value -> value -> value -> value -> result Q.

Lemma enrich_same (start_lat start_lon : value) (bpp : Q) (p p' : place) :
  same_inputs p p' ->
  match enrich geodesic_km start_lat start_lon bpp p,
        enrich geodesic_km start_lat start_lon bpp p' with
  | Ok e, Ok e' => same_enriched e e'
  | Raise e, Raise e' => e = e'
  | _, _ => False
  end.
Proof.
  intros H. unfold enrich.
  rewrite (getitem_same p p' "lat"), (getitem_same p p' "lon")
    by (apply H; simpl; tauto).
  destruct (getitem p' "lat") as [plat|]; simpl; [|done].
  destruct (getitem p' "lon") as [plon|]; simpl; [|done].
  destruct (travel_time_min _ _ _ _ _ _) as [t|]; simpl; [|done].
  rewrite (compute_score_same p p') by (apply H; simpl; tauto).
  destruct (compute_score p' bpp t) as [sc|]; simpl; [|done].
  intros k Hk. simpl in Hk.
  destruct Hk as [<-|[<-|Hk]].
  - by rewrite !(lookup_insert_ne _ "approx_cost_pp"), !lookup_insert_eq.
  - by rewrite !lookup_insert_eq.
  - rewrite !lookup_insert_ne; [by apply H|..];
      intros <-; simpl in Hk; intuition discriminate.
Qed.

Lemma visit_same (people : Z) (st : loop_state) (e e' : place) :
  same_enriched e e' ->
  visit geodesic_km people st e = visit geodesic_km people st e'.
Proof.
  intros H. unfold visit.
  rewrite (getitem_same e e' "approx_cost_pp"), (getitem_same e e' "lat"),
    (getitem_same e e' "lon"), (getitem_same e e' "name"),
    (get_same e e' "categories"), (get_same e e' "photo_url"),
    (estimate_visit_duration_same e e')
    by (apply H; simpl; tauto).
  done.
Qed.

Lemma for_each_visit_same (people : Z) (st : loop_state) (es es' : list place) :
  Forall2 same_enriched es es' ->
  for_each (visit geodesic_km people) st es
  = for_each (visit geodesic_km people) st es'.
Proof.
  intros H. revert st. induction H as [|e e' es es' He _ IH]; intros st;
    simpl; [done|].
  rewrite (visit_same people st e e' He).
  destruct (visit geodesic_km people st e'); simpl; [apply IH | done].
Qed.

Lemma list_sort_same (es es' : list place) :
  Forall2 same_enriched es es' ->
  match list_sort sort_key true es, list_sort sort_key true es' with
  | Ok k, Ok k' => Forall2 same_enriched k k'
  | Raise e, Raise e' => e = e'
  | _, _ => False
  end.
Proof.
  intros H.
  assert (mapM sort_key es = mapM sort_key es') as Hkeys.
  { induction H as [|e e' es es' He _ IH]; simpl; [done|].
    assert (sort_key e = sort_key e') as ->.
    { unfold sort_key.
      by rewrite (getitem_same e e' "score") by (apply He; simpl; tauto). }
    by rewrite IH. }
  unfold list_sort. rewrite Hkeys.
  destruct (mapM sort_key es') as [keys|]; simpl; [|done].
  rewrite !reversed_sort_descending.
  apply Forall2_fmap.
  apply (Forall2_impl
           (fun ke ke' : Q * place =>
              fst ke = fst ke' /\ same_enriched (snd ke) (snd ke')));
    [|by intros ? ? [_ ?]].
  apply sortDescending_Forall2; [by intros ? ? [? _]|].
  clear Hkeys. revert keys.
  induction H as [|e e' es es' He _ IH]; intros [|k keys]; simpl;
    constructor; auto.
Qed.

(** X5. The planner reads seven keys of a place: lat, lon, name,
    categories, photo_url, price_tier and popularity. Two input lists whose
    places agree on these keys give the same outcome, itinerary or
    exception; whatever else a record holds, a score, approx_cost_pp or
    travel_from_start of the caller included, is ignored. *)
Theorem unread_keys_are_ignored (ps ps' : list place)
    (start_lat start_lon : value) (total_budget : Q) (people : Z) :
  Forall2 same_inputs ps ps' ->
  generate_itinerary_from_selected geodesic_km ps
    start_lat start_lon total_budget people
  = generate_itinerary_from_selected geodesic_km ps'
      start_lat start_lon total_budget people.
Proof.
  intros H. unfold generate_itinerary_from_selected.
  destruct H as [|p p' ps ps' Hp H]; [done|].
  assert (Forall2 same_inputs (p :: ps) (p' :: ps')) as Hall by by constructor.
  pose proof (mapM_rel same_inputs same_enriched _ _ _ _
                (enrich_same start_lat start_lon
                   (total_budget / inject_Z (Z.max 1 people))) Hall) as Henr.
  destruct (mapM _ (p :: ps)) as [es|e], (mapM _ (p' :: ps')) as [es'|e'];
    try done; [|by subst].
  simpl. fold sort_key.
  pose proof (list_sort_same es es' Henr) as Hsort.
  destruct (list_sort sort_key true es) as [k|e],
           (list_sort sort_key true es') as [k'|e']; try done; [|by subst].
  simpl. by rewrite (for_each_visit_same people _ k k' Hsort).
Qed.
End UnreadKeys.

Lemma unread_keys_are_ignored_witness :
  generate_itinerary_from_selected grid_km
    [<["score" := VStr "best"]> (<["fsq_place_id" := VStr "4b0587"]> garden); diner]
    start_lat start_lon 2000 2
  = generate_itinerary_from_selected grid_km [garden; diner]
      start_lat start_lon 2000 2.
Proof.
  apply (unread_keys_are_ignored grid_km).
  repeat constructor; intros k Hk; simpl in Hk;
    repeat (destruct Hk as [<-|Hk]; [vm_compute; reflexivity|]);
    destruct Hk.
Defined.

(** ** When the score cannot be computed, and how large it can be *)

Lemma as_number_is_number (v : value) :
  match as_number v with
  | Ok _ => is_number v = true
  | Raise e => e = TypeError /\ is_number v = false
  end.
Proof. by destruct v. Qed.

Lemma approx_cost_of_cases (v : value) :
  match approx_cost_of v with
  | Ok c => In c [200; 400; 800; 1200]%Z /\ forall l, v <> VList l
  | Raise e => e = TypeError /\ exists l, v = VList l
  end.
Proof.
  destruct (approx_cost_of v) as [c|e] eqn:E.
  - split; [by apply (approx_cost_of_values v)|]. intros l ->. discriminate.
  - destruct v; try discriminate. injection E as <-. eauto.
Qed.

(** X6. [compute_score] raises nothing but [TypeError], and raises it
    exactly when the price tier is a list or the popularity is present and
    is not a number. A missing popularity or tier, a tier of [None] or of a
    string never make it fail, and the cost it returns is one of 200, 400,
    800 and 1200. *)
Theorem compute_score_raises_only_TypeError (p : place)
    (budget_per_person travel_min : Q) :
  (compute_score p budget_per_person travel_min = Raise TypeError <->
   (exists l, p !! "price_tier" = Some (VList l)) \/
   (exists v, p !! "popularity" = Some v /\ is_number v = false)) /\
  (forall e, compute_score p budget_per_person travel_min = Raise e ->
             e = TypeError) /\
  (forall s c, compute_score p budget_per_person travel_min = Ok (s, c) ->
               In c [200; 400; 800; 1200]%Z).
Proof.
  unfold compute_score, get.
  pose proof (approx_cost_of_cases
                match p !! "price_tier" with Some v => v | None => VInt 2 end)
    as Hc.
  pose proof (as_number_is_number
                match p !! "popularity" with Some v => v | None => VFloat 0.6 end)
    as Hn.
  destruct (approx_cost_of _) as [c|e]; simpl.
  - destruct Hc as [Hc Hl].
    destruct (as_number _) as [q|e]; simpl.
    + split; [|split]; [|done|by intros ? ? [= _ <-]].
      split; [done|]. intros [[l Hp]|(v & Hp & Hv)]; rewrite Hp in *.
      * by destruct (Hl l).
      * congruence.
    + destruct Hn as [-> Hn]. split; [|split]; [|by intros ? [= <-]|done].
      split; [|done]. intros _. right.
      destruct (p !! "popularity") as [v|]; [eauto | done].
  - destruct Hc as [-> [l Hl]]. split; [|split]; [|by intros ? [= <-]|done].
    split; [|done]. intros _. left. exists l.
    destruct (p !! "price_tier"); [by subst | done].
Qed.

Lemma py_max_bounds (a b : Q) :
  a <= py_max a b /\ b <= py_max a b /\ (py_max a b = a \/ py_max a b = b).
Proof.
  unfold py_max. pose proof (py_gt_spec b a) as H.
  destruct (py_gt b a); repeat split; try lra; auto.
Qed.

Lemma cost_factor_bounds (bpp : Q) (c : Z) :
  In c [200; 400; 800; 1200]%Z ->
  0 <= py_max 0 ((bpp - inject_Z c) / py_max 1 bpp) /\
  py_max 0 ((bpp - inject_Z c) / py_max 1 bpp) < 1.
Proof.
  intros Hc.
  assert (0 < inject_Z c) as Hpos.
  { simpl in Hc. destruct Hc as [<-|[<-|[<-|[<-|[]]]]]; reflexivity. }
  destruct (py_max_bounds 1 bpp) as (H1 & Hb & _).
  assert ((bpp - inject_Z c) / py_max 1 bpp < 1) as Hx
    by (apply Qlt_shift_div_r; lra).
  revert Hx. generalize ((bpp - inject_Z c) / py_max 1 bpp). intros x Hx.
  destruct (py_max_bounds 0 x) as (H0 & _ & [E|E]); rewrite E in *; lra.
Qed.

(** X7. The fit to the budget adds at least 0 and less than 0.3 to a score:
    a score lies from [0.5 * popularity - 0.2 * (travel_min / 30)] up to,
    but not reaching, that value plus 0.3. *)
Theorem score_bounds (p : place) (budget_per_person travel_min pop s : Q)
    (c : Z) :
  as_number (get p "popularity" (VFloat 0.6)) = Ok pop ->
  compute_score p budget_per_person travel_min = Ok (s, c) ->
  0.5 * pop - 0.2 * (travel_min / 30) <= s /\
  s < 0.5 * pop + 0.3 - 0.2 * (travel_min / 30).
Proof.
  unfold compute_score. intros Hpop H.
  apply bind_Ok in H as (c' & Hc' & H). rewrite Hpop in H. simpl in H.
  injection H as <- <-.
  destruct (cost_factor_bounds budget_per_person c') as [H0 H1];
    [by apply (approx_cost_of_values _ _ Hc')|].
  split; lra.
Qed.

Lemma score_bounds_witness :
  exists s,
    compute_score garden 1000 6 = Ok (s, 400%Z) /\
    0.5 * 0.9 - 0.2 * (6 / 30) <= s /\
    s < 0.5 * 0.9 + 0.3 - 0.2 * (6 / 30).
Proof.
  eexists. split; [vm_compute; reflexivity|].
  eapply (score_bounds garden 1000 6 0.9 _ 400).
  - reflexivity.
  - vm_compute. reflexivity.
Defined.

Lemma py_max_mono (a x y : Q) : x <= y -> py_max a x <= py_max a y.
Proof.
  intros H. unfold py_max.
  pose proof (py_gt_spec x a). pose proof (py_gt_spec y a).
  destruct (py_gt x a), (py_gt y a); lra.
Qed.

Lemma py_max_greater (a b : Q) : a < b -> py_max a b = b.
Proof. intros H. unfold py_max. by rewrite (py_gt_lt b a H). Qed.

Lemma py_max_not_greater (a b : Q) : b <= a -> py_max a b = a.
Proof. intros H. unfold py_max. by rewrite (py_gt_le b a H). Qed.

Lemma cost_factor_mono (c : Z) (b1 b2 : Q) :
  In c [200; 400; 800; 1200]%Z ->
  b1 <= b2 ->
  py_max 0 ((b1 - inject_Z c) / py_max 1 b1)
  <= py_max 0 ((b2 - inject_Z c) / py_max 1 b2).
Proof.
  intros Hc Hb.
  assert (200 <= inject_Z c) as Hpos.
  { simpl in Hc. destruct Hc as [<-|[<-|[<-|[<-|[]]]]]; discriminate. }
  destruct (Qlt_le_dec (inject_Z c) b1) as [Hlt|Hle].
  - rewrite (py_max_greater 1 b1), (py_max_greater 1 b2) by lra.
    apply py_max_mono.
    apply Qle_shift_div_l; [lra|].
    unfold Qdiv. rewrite <- Qmult_assoc, (Qmult_comm (/ b1)), Qmult_assoc.
    apply Qle_shift_div_r; [lra|]. nra.
  - rewrite (py_max_not_greater 0 ((b1 - inject_Z c) / py_max 1 b1)).
    + apply py_max_bounds.
    + destruct (py_max_bounds 1 b1) as (H1 & _ & _).
      apply Qle_shift_div_r; lra.
Qed.

(** X8. A larger budget per person never lowers the score of a place: for
    the same place and the same travel time, the score under the larger
    budget is at least the score under the smaller one. *)
Theorem larger_budget_never_lowers_score (p : place) (b1 b2 travel_min : Q)
    (s1 s2 : Q) (c1 c2 : Z) :
  b1 <= b2 ->
  compute_score p b1 travel_min = Ok (s1, c1) ->
  compute_score p b2 travel_min = Ok (s2, c2) ->
  s1 <= s2.
Proof.
  unfold compute_score. intros Hb H1 H2.
  apply bind_Ok in H1 as (a1 & Ha1 & H1).
  apply bind_Ok in H2 as (a2 & Ha2 & H2).
  apply bind_Ok in H1 as (q1 & Hq1 & H1).
  apply bind_Ok in H2 as (q2 & Hq2 & H2).
  assert (a2 = a1) as -> by congruence.
  assert (q2 = q1) as -> by congruence.
  injection H1 as <- <-. injection H2 as <- <-.
  pose proof (cost_factor_mono a1 b1 b2 (approx_cost_of_values _ _ Ha1) Hb).
  lra.
Qed.

Lemma larger_budget_never_lowers_score_witness :
  exists s1 s2,
    compute_score garden 300 6 = Ok (s1, 400%Z) /\
    compute_score garden 1000 6 = Ok (s2, 400%Z) /\
    s1 <= s2.
Proof.
  eexists. eexists.
  split; [vm_compute; reflexivity|]. split; [vm_compute; reflexivity|].
  eapply (larger_budget_never_lowers_score garden 300 1000 6 _ _ 400 400).
  - discriminate.
  - vm_compute. reflexivity.
  - vm_compute. reflexivity.
Defined.

(** ** The visit duration by the shape of the categories *)

Lemma estimate_visit_duration_range (p : place) (d : Z) :
  estimate_visit_duration p = Ok d -> In d [45; 60; 75; 90; 120]%Z.
Proof.
  unfold estimate_visit_duration. intros H.
  apply bind_Ok in H as (cats & _ & H).
  repeat (destruct (_ : bool) in H; [injection H as <-; simpl; tauto|]).
  injection H as <-. simpl. tauto.
Qed.

Lemma lowered_labels_list (l : list value) :
  if forallb is_str l
  then exists cats, lowered_labels (VList l) = Ok cats
  else lowered_labels (VList l) = Raise AttributeError.
Proof.
  simpl. induction l as [|v l IH]; simpl; [by eexists|].
  destruct v; simpl; try done.
  destruct (forallb is_str l).
  - destruct IH as [cats ->]. simpl. by eexists.
  - by rewrite IH.
Qed.

Lemma py_in_single (a b c : ascii) (kw : string) :
  py_in (String a (String b kw)) (String c EmptyString) = false.
Proof. simpl. by destruct (Ascii.eqb a c). Qed.

Lemma any_in_chars (a b : ascii) (kw s : string) :
  any_in (String a (String b kw)) (map lower (chars s)) = false.
Proof.
  unfold any_in. induction s as [|c s IH]; [done|].
  cbn [chars map lower existsb]. by rewrite py_in_single, IH.
Qed.

Lemma any_in2_chars (a1 b1 a2 b2 : ascii) (kw1 kw2 s : string) :
  any_in2 (String a1 (String b1 kw1)) (String a2 (String b2 kw2))
    (map lower (chars s)) = false.
Proof.
  unfold any_in2. induction s as [|c s IH]; [done|].
  cbn [chars map lower existsb]. by rewrite !py_in_single, IH.
Qed.

(** X9. What [estimate_visit_duration] does is fixed by the value under
    ["categories"] (an empty list when the key is missing): [None] and
    numbers raise [TypeError]; a list with an element that is not a string
    raises [AttributeError]; a list of strings gives one of 45, 60, 75, 90
    and 120; and a single string in place of a list always gives 45,
    whatever it says, because its labels are then its characters. *)
Theorem estimate_visit_duration_by_shape (p : place) :
  match get p "categories" (VList []) with
  | VNone | VInt _ | VFloat _ => estimate_visit_duration p = Raise TypeError
  | VStr _ => estimate_visit_duration p = Ok 45%Z
  | VList l =>
      if forallb is_str l
      then exists d, estimate_visit_duration p = Ok d /\
                     In d [45; 60; 75; 90; 120]%Z
      else estimate_visit_duration p = Raise AttributeError
  end.
Proof.
  pose proof (estimate_visit_duration_range p) as Hrange.
  unfold estimate_visit_duration in *.
  destruct (get p "categories" (VList [])) as [| | |s|l]; try done.
  - cbn [lowered_labels mbind result_bind].
    by rewrite (any_in2_chars "p" "a" "g" "a"), (any_in_chars "c" "a"),
      (any_in_chars "r" "e"), (any_in_chars "m" "a"), (any_in_chars "m" "u"),
      (any_in2_chars "a" "d" "a" "m").
  - pose proof (lowered_labels_list l) as Hl.
    destruct (forallb is_str l).
    + destruct Hl as [cats Hcats]. rewrite Hcats in *.
      cbn [mbind result_bind] in *.
      destruct (if any_in2 "park" "garden" cats then _ else _) as [d|e] eqn:E.
      * exists d. split; [done|]. by apply Hrange.
      * repeat (destruct (_ : bool) in E; [discriminate|]). discriminate.
    + by rewrite Hl.
Qed.

Lemma existsb_same_elements {A : Type} (f : A -> bool) (l1 l2 : list A) :
  (forall x, In x l1 <-> In x l2) -> existsb f l1 = existsb f l2.
Proof.
  intros H. apply eq_true_iff_eq. rewrite !existsb_exists.
  split; intros (x & Hx & Hf); exists x; split; try done; by apply H.
Qed.

(** X10. The visit duration depends on the category labels only as a set
    and only up to case: two places whose lower-cased labels are the same
    strings, in whatever order and however often repeated, get the same
    duration. *)
Theorem labels_count_as_a_set (p1 p2 : place) (labels1 labels2 : list string) :
  get p1 "categories" (VList []) = VList (map VStr labels1) ->
  get p2 "categories" (VList []) = VList (map VStr labels2) ->
  (forall c, In c (map lower labels1) <-> In c (map lower labels2)) ->
  estimate_visit_duration p1 = estimate_visit_duration p2.
Proof.
  intros H1 H2 Hset. unfold estimate_visit_duration.
  rewrite H1, H2, !lowered_labels_strings. simpl.
  unfold any_in, any_in2.
  by rewrite !(existsb_same_elements _ (map lower labels1) (map lower labels2)).
Qed.

Lemma labels_count_as_a_set_witness :
  estimate_visit_duration
    (<["categories" := VList [VStr "Cafe"; VStr "PARK"; VStr "cafe"]]> ∅)
  = estimate_visit_duration garden.
Proof.
  apply (labels_count_as_a_set _ garden ["Cafe"; "PARK"; "cafe"] ["Park"; "Cafe"]).
  - reflexivity.
  - reflexivity.
  - intros c. simpl. tauto.
Defined.

(** ** The order of selection matters for ties only *)

Section NoTies.
Context {A : Type} (key : A -> Q).

Lemma descending_strictly (l : list A) :
  descending key l -> NoDup (map (fun x => Qred (key x)) l) ->
  strictly_descending key l.
Proof.
  unfold descending, strictly_descending.
  induction 1 as [|x l _ IH Hx]; intros Hnd; [constructor|].
  simpl in Hnd. apply NoDup_cons in Hnd as [Hnotin Hnd].
  constructor; [by apply IH|].
  apply Forall_forall. intros y Hy.
  destruct (Qle_lt_or_eq _ _ (proj1 (Forall_forall _ _) Hx y Hy)) as [|Heq];
    [done|].
  destruct Hnotin. apply list_elem_of_In, in_map_iff. exists y.
  split; [by apply Qred_complete | by apply list_elem_of_In].
Qed.

Lemma strictly_descending_unique (l1 l2 : list A) :
  strictly_descending key l1 -> strictly_descending key l2 ->
  l1 ≡ₚ l2 -> l1 = l2.
Proof.
  unfold strictly_descending. intros H1. revert l2.
  induction H1 as [|x l1 _ IH Hx]; intros l2 H2 Hperm.
  - symmetry. by apply Permutation_nil.
  - destruct H2 as [|y l2 H2 Hy].
    { symmetry in Hperm. by apply Permutation_nil in Hperm. }
    assert (x = y) as ->.
    { assert (x ∈ y :: l2) as Hxin by (rewrite <- Hperm; left).
      assert (y ∈ x :: l1) as Hyin by (rewrite Hperm; left).
      apply elem_of_cons in Hxin as [|Hxin]; [done|].
      apply elem_of_cons in Hyin as [|Hyin]; [done|].
      pose proof (proj1 (Forall_forall _ _) Hx y Hyin) as Hyx.
      pose proof (proj1 (Forall_forall _ _) Hy x Hxin) as Hxy.
      cbn beta in Hyx, Hxy. lra. }
    f_equal. apply IH; [done|]. by apply Permutation_cons_inv in Hperm.
Qed.

Lemma sortDescending_permuted (l1 l2 : list A) :
  l1 ≡ₚ l2 -> NoDup (map (fun x => Qred (key x)) l2) ->
  Reference.sortDescending key l1 = Reference.sortDescending key l2.
Proof.
  intros Hperm Hnd.
  assert (forall l, l ≡ₚ l2 ->
            strictly_descending key (Reference.sortDescending key l)) as Hs.
  { intros l Hl. apply descending_strictly; [apply sortDescending_sorted|].
    assert (map (fun x => Qred (key x)) (Reference.sortDescending key l)
            ≡ₚ map (fun x => Qred (key x)) l2) as Hp
      by (apply Permutation_map; by rewrite sortDescending_perm).
    by rewrite Hp. }
  apply strictly_descending_unique; [by apply Hs..|].
  by rewrite !sortDescending_perm.
Qed.
End NoTies.

Lemma buildItinerary_permuted
    (distance : Reference.Coordinate -> Reference.Coordinate -> Q)
    (places places' : list Reference.Place) (start : Reference.Coordinate)
    (total_budget : Q) (people : Z) :
  places' ≡ₚ places ->
  no_ties distance start (total_budget / inject_Z (Z.max 1 people)) places ->
  Reference.buildItinerary distance places' start total_budget people
  = Reference.buildItinerary distance places start total_budget people.
Proof.
  intros Hperm Hties. unfold Reference.buildItinerary.
  set (enr := Reference.enrichCandidate distance start
                (total_budget / inject_Z (Z.max 1 people))).
  rewrite (sortDescending_permuted Reference.candidateScore
             (map enr places') (map enr places));
    [done|by apply Permutation_map|].
  unfold no_ties, place_score in Hties. by rewrite map_map.
Qed.

(** X11. When no two of the places have the same score, the itinerary does
    not depend on the order in which the places were selected: any
    rearrangement of the input list, carried by well-formed records, gives
    the same itinerary. *)
Theorem selection_order_matters_for_ties_only
    (geodesic_km : value -> value -> value -> value -> result Q)
    (distance : Reference.Coordinate -> Reference.Coordinate -> Q)
    (selected_places selected_places' : list place)
    (places places' : list Reference.Place)
    (start : Reference.Coordinate) (total_budget : Q) (people : Z) :
  Forall2 represents selected_places places ->
  Forall2 represents selected_places' places' ->
  places' ≡ₚ places ->
  geodesic_on geodesic_km distance (start :: map Reference.coordinate places) ->
  no_ties distance start (total_budget / inject_Z (Z.max 1 people)) places ->
  generate_itinerary_from_selected geodesic_km selected_places'
    (VFloat (fst start)) (VFloat (snd start)) total_budget people
  = generate_itinerary_from_selected geodesic_km selected_places
      (VFloat (fst start)) (VFloat (snd start)) total_budget people.
Proof.
  intros Hrep Hrep' Hperm Hgeo Hties.
  rewrite (generate_refines geodesic_km distance selected_places places)
    by done.
  rewrite (generate_refines geodesic_km distance selected_places' places');
    [by rewrite (buildItinerary_permuted distance places places')|done|].
  intros a b Ha Hb. apply Hgeo.
  - destruct Ha as [->|Ha]; [by left|]. right.
    apply list_elem_of_In. rewrite <- Hperm. by apply list_elem_of_In.
  - destruct Hb as [->|Hb]; [by left|]. right.
    apply list_elem_of_In. rewrite <- Hperm. by apply list_elem_of_In.
Qed.

Lemma selection_order_matters_for_ties_only_witness :
  generate_itinerary_from_selected grid_km [diner; garden; palace]
    start_lat start_lon 2000 2
  = generate_itinerary_from_selected grid_km [garden; palace; diner]
      start_lat start_lon 2000 2.
Proof.
  apply (selection_order_matters_for_ties_only grid_km grid_distance
           [garden; palace; diner] [diner; garden; palace]
           [Garden; Palace; Diner] [Diner; Garden; Palace] start 2000 2).
  - repeat constructor.
  - repeat constructor.
  - apply (Permutation_cons_append [Garden; Palace] Diner).
  - apply grid_km_distance.
  - unfold no_ties. vm_compute.
    repeat (apply NoDup_cons_2;
            [rewrite ?elem_of_cons, elem_of_nil; intuition discriminate|]).
    apply NoDup_nil_2.
Defined.

(** ** The first stop *)

Section FirstStop.
Variable distance : Reference.Coordinate -> Reference.Coordinate -> Q.

Lemma fold_left_consider_extends (people : Z) (cs : list Reference.Candidate)
    (st : Reference.BuilderState) :
  exists more,
    Reference.stops (fold_left (Reference.consider distance people) cs st)
    = Reference.stops st ++ more.
Proof.
  revert st. induction cs as [|c cs IH]; intros st; simpl.
  - exists []. by rewrite app_nil_r.
  - destruct (IH (Reference.consider distance people st c)) as [more ->].
    destruct (consider_stops distance people st c) as [->|[s ->]].
    + by exists more.
    + exists (s :: more). by rewrite <- app_assoc.
Qed.

(** From the initial state a candidate is either skipped, and then it is
    infeasible, or it becomes the first stop, and then it is feasible. *)
Lemma consider_initial (start : Reference.Coordinate) (total_budget bpp : Q)
    (people : Z) (P : Reference.Place) :
  let init := {| Reference.stops := [];
                 Reference.remainingBudget := total_budget;
                 Reference.currentPosition := start;
                 Reference.minutesUsed := 0 |} in
  let c := Reference.enrichCandidate distance start bpp P in
  (infeasible distance start total_budget people P /\
   Reference.consider distance people init c = init) \/
  (feasible distance start total_budget people P /\
   exists s,
     Reference.stops (Reference.consider distance people init c) = [s] /\
     Reference.stopName s = Reference.displayName P /\
     Reference.stopCoordinate s = Reference.coordinate P /\
     Reference.travelMinutes s
     = Reference.travelTime distance start (Reference.coordinate P)).
Proof.
  intros init c. unfold Reference.consider, infeasible, feasible. simpl.
  pose proof (py_gt_spec
    (inject_Z (Reference.approximateCost (Reference.priceTier P))
     * inject_Z people) total_budget) as Hb.
  destruct (py_gt _ total_budget); [left; split; [by left | done]|].
  pose proof (py_gt_spec
    (0 + Reference.travelTime distance start (Reference.coordinate P)
     + inject_Z (Reference.estimateDuration (Reference.categoryLabels P)))
    MAX_MINUTES) as Ht.
  destruct (py_gt _ MAX_MINUTES); [left; split; [by right | done]|].
  right. split; [done|]. by eexists.
Qed.

Lemma buildItinerary_first_stop (places : list Reference.Place)
    (start : Reference.Coordinate) (total_budget : Q) (people : Z)
    (s : Reference.ItineraryStop) (rest : list Reference.ItineraryStop) :
  Reference.buildItinerary distance places start total_budget people
  = s :: rest ->
  exists P,
    In P places /\
    feasible distance start total_budget people P /\
    Reference.stopName s = Reference.displayName P /\
    Reference.stopCoordinate s = Reference.coordinate P /\
    Reference.travelMinutes s
    = Reference.travelTime distance start (Reference.coordinate P) /\
    forall P',
      In P' places -> feasible distance start total_budget people P' ->
      place_score distance start
        (total_budget / inject_Z (Z.max 1 people)) P'
      <= place_score distance start
           (total_budget / inject_Z (Z.max 1 people)) P.
Proof.
  unfold Reference.buildItinerary.
  set (bpp := total_budget / inject_Z (Z.max 1 people)).
  set (init := {| Reference.stops := [];
                  Reference.remainingBudget := total_budget;
                  Reference.currentPosition := start;
                  Reference.minutesUsed := 0 |}).
  pose proof (sortDescending_sorted Reference.candidateScore
                (map (Reference.enrichCandidate distance start bpp) places))
    as Hsorted.
  assert (forall c,
            In c (Reference.sortDescending Reference.candidateScore
                    (map (Reference.enrichCandidate distance start bpp) places))
            <-> exists P, In P places /\
                          c = Reference.enrichCandidate distance start bpp P)
    as Hmem.
  { intros c. rewrite <- list_elem_of_In, sortDescending_perm, list_elem_of_In,
      in_map_iff. split; intros (P & H1 & H2); exists P; by split. }
  revert Hsorted Hmem.
  generalize (Reference.sortDescending Reference.candidateScore
                (map (Reference.enrichCandidate distance start bpp) places)).
  intros cs Hsorted Hmem Hrun.
  assert (forall P', In P' places ->
            feasible distance start total_budget people P' ->
            exists c, In c cs /\
                      c = Reference.enrichCandidate distance start bpp P') as Hall.
  { intros P' HP' _. eexists. split; [|done]. apply Hmem. eauto. }
  assert (forall c, In c cs ->
            exists P, In P places /\
                      c = Reference.enrichCandidate distance start bpp P) as Hsome
    by (intros c Hc; by apply Hmem).
  clear Hmem. revert Hsorted Hall Hsome Hrun.
  induction cs as [|c cs IH]; intros Hsorted Hall Hsome Hrun; [done|].
  destruct (Hsome c (or_introl eq_refl)) as (P & HP & ->).
  simpl in Hrun.
  destruct (consider_initial start total_budget bpp people P)
    as [[Hinf Hskip]|[Hfeas (s0 & Hs0 & Hname & Hcoord & Htravel)]].
  - fold init in Hskip. rewrite Hskip in Hrun.
    apply StronglySorted_inv in Hsorted as [Hsorted _].
    apply IH; try done.
    + intros P' HP' Hf'. destruct (Hall P' HP' Hf') as (c & [<-|Hc] & Hc');
        [|eauto].
      subst. destruct Hf' as [Hb Ht]. destruct Hinf as [Hinf|Hinf].
      * exfalso. revert Hinf. clear -Hc' Hb.
        assert (Reference.approxCostPerPerson
                  (Reference.enrichCandidate distance start bpp P)
                = Reference.approxCostPerPerson
                    (Reference.enrichCandidate distance start bpp P'))
          as Heq by by rewrite Hc'.
        simpl in Heq. rewrite Heq. lra.
      * exfalso. revert Hinf. clear -Hc' Ht.
        assert (Reference.candidate
                  (Reference.enrichCandidate distance start bpp P)
                = Reference.candidate
                    (Reference.enrichCandidate distance start bpp P'))
          as Heq by by rewrite Hc'.
        simpl in Heq. subst. lra.
    + intros c Hc. apply Hsome. by right.
  - fold init in Hs0.
    destruct (fold_left_consider_extends people cs
                (Reference.consider distance people init
                   (Reference.enrichCandidate distance start bpp P)))
      as [more Hmore].
    rewrite Hmore, Hs0 in Hrun. injection Hrun as <- _.
    exists P. do 5 (split; [done|]).
    intros P' HP' Hf'. destruct (Hall P' HP' Hf') as (c & [<-|Hc] & Hc').
    + unfold place_score. rewrite <- Hc'. lra.
    + apply StronglySorted_inv in Hsorted as [_ Hle].
      pose proof (proj1 (List.Forall_forall _ _) Hle c Hc) as Hcle.
      unfold place_score. by rewrite <- Hc'.
Qed.
End FirstStop.

(** X12. The first stop of an itinerary is the best place that is feasible
    on its own: it comes from a place that passes both gates from the
    start, its travel time is the one from the start, and no feasible
    place of the input has a higher score. *)
Theorem first_stop_is_best_feasible_place
    (geodesic_km : value -> value -> value -> value -> result Q)
    (distance : Reference.Coordinate -> Reference.Coordinate -> Q)
    (selected_places : list place) (places : list Reference.Place)
    (start : Reference.Coordinate) (total_budget : Q) (people : Z)
    (s : Stop) (rest : list Stop) :
  Forall2 represents selected_places places ->
  geodesic_on geodesic_km distance (start :: map Reference.coordinate places) ->
  generate_itinerary_from_selected geodesic_km selected_places
    (VFloat (fst start)) (VFloat (snd start)) total_budget people
  = Ok (s :: rest) ->
  exists P,
    In P places /\
    feasible distance start total_budget people P /\
    name s = VStr (Reference.displayName P) /\
    lat s = VFloat (fst (Reference.coordinate P)) /\
    lon s = VFloat (snd (Reference.coordinate P)) /\
    travel_time s = Reference.travelTime distance start (Reference.coordinate P) /\
    forall P',
      In P' places -> feasible distance start total_budget people P' ->
      place_score distance start
        (total_budget / inject_Z (Z.max 1 people)) P'
      <= place_score distance start
           (total_budget / inject_Z (Z.max 1 people)) P.
Proof.
  intros Hrep Hgeo H.
  rewrite (generate_refines geodesic_km distance selected_places places) in H
    by done.
  injection H as H.
  destruct (Reference.buildItinerary distance places start total_budget people)
    as [|s0 rest0] eqn:E; [discriminate|].
  injection H as <- _.
  destruct (buildItinerary_first_stop distance _ _ _ _ _ _ E)
    as (P & HP & Hf & Hname & Hcoord & Htravel & Hbest).
  exists P. simpl. rewrite Hname, Hcoord, Htravel. done.
Qed.

Lemma sample_represented_2 :
  Forall2 represents [palace; diner; garden] [Palace; Diner; Garden].
Proof. repeat constructor. Qed.

Lemma first_stop_is_best_feasible_place_witness :
  exists s rest P,
    generate_itinerary_from_selected grid_km [palace; diner; garden]
      start_lat start_lon 2000 2 = Ok (s :: rest) /\
    In P [Palace; Diner; Garden] /\
    name s = VStr (Reference.displayName P).
Proof.
  eexists. eexists.
  destruct (first_stop_is_best_feasible_place grid_km grid_distance
              [palace; diner; garden] [Palace; Diner; Garden] start 2000 2
              _ _ sample_represented_2 (grid_km_distance _)
              ltac:(vm_compute; reflexivity))
    as (P & HP & _ & Hname & _).
  exists P. split; [vm_compute; reflexivity|]. by split.
Defined.

(** ** What the planner can raise *)

Lemma bind_Raise {A B : Type} (m : result A) (f : A -> result B) (e : exn) :
  m ≫= f = Raise e -> m = Raise e \/ exists a, m = Ok a /\ f a = Raise e.
Proof.
  destruct m as [a|e']; intros H; [right; eauto|].
  injection H as ->. by left.
Qed.

Lemma mapM_Raise_inv {A B : Type} (f : A -> result B) (l : list A) (e : exn) :
  mapM f l = Raise e -> exists x, In x l /\ f x = Raise e.
Proof.
  induction l as [|x l IH]; intros H; simpl in H; [discriminate|].
  apply bind_Raise in H as [H|(y & Hy & H)].
  - exists x. split; [by left | done].
  - apply bind_Raise in H as [H|(k & Hk & H)]; [|discriminate].
    destruct (IH H) as (x' & Hx' & Hf). exists x'. split; [by right | done].
Qed.

Lemma for_each_Raise_inv {S A : Type} (body : S -> A -> result S) (xs : list A)
    (st : S) (e : exn) :
  for_each body st xs = Raise e ->
  exists st' x, In x xs /\ body st' x = Raise e.
Proof.
  revert st. induction xs as [|x xs IH]; intros st H; simpl in H;
    [discriminate|].
  apply bind_Raise in H as [H|(st1 & H1 & H)].
  - exists st, x. split; [by left | done].
  - destruct (IH st1 H) as (st' & x' & Hx' & Hb).
    exists st', x'. split; [by right | done].
Qed.

Lemma getitem_Raise (p : place) (k : string) (e : exn) :
  getitem p k = Raise e -> e = KeyError k /\ p !! k = None.
Proof. unfold getitem. destruct (p !! k); [done | by intros [= <-]]. Qed.

Lemma lowered_labels_Raise (v : value) (e : exn) :
  lowered_labels v = Raise e -> e = TypeError \/ e = AttributeError.
Proof.
  destruct v as [| | |s|l]; simpl; try (intros [= <-]; tauto); try done.
  induction l as [|v l IH]; simpl; [done|].
  destruct v; simpl; try (intros [= <-]; tauto).
  destruct (mapM _ l); simpl; [done|]. intros [= <-]. by apply IH.
Qed.

Lemma estimate_visit_duration_Raise (p : place) (e : exn) :
  estimate_visit_duration p = Raise e -> e = TypeError \/ e = AttributeError.
Proof.
  unfold estimate_visit_duration. intros H.
  apply bind_Raise in H as [H|(cats & _ & H)];
    [by apply lowered_labels_Raise in H|].
  repeat (destruct (_ : bool) in H; [discriminate|]). discriminate.
Qed.

Lemma compute_score_raises_TypeError (p : place) (bpp t : Q) (e : exn) :
  compute_score p bpp t = Raise e -> e = TypeError.
Proof.
  unfold compute_score. intros H.
  apply bind_Raise in H as [H|(c & _ & H)].
  - pose proof (approx_cost_of_cases (get p "price_tier" (VInt 2))) as Hc.
    rewrite H in Hc. tauto.
  - apply bind_Raise in H as [H|(q & _ & H)]; [|discriminate].
    pose proof (as_number_is_number (get p "popularity" (VFloat 0.6))) as Hn.
    rewrite H in Hn. tauto.
Qed.

Section Exceptions.
Variable geodesic_km : value -> value -> value -> value -> result Q.

Lemma travel_time_min_Raise (lat1 lon1 lat2 lon2 : value) (e : exn) :
  travel_time_min geodesic_km lat1 lon1 lat2 lon2 default_speed = Raise e ->
  from_geodesic geodesic_km e.
Proof.
  unfold travel_time_min, distance_km. intros H.
  apply bind_Raise in H as [H|(d & _ & H)]; [|discriminate].
  by exists lat1, lon1, lat2, lon2.
Qed.

Lemma enrich_Raise (start_lat start_lon : value) (bpp : Q) (p : place) (e : exn) :
  enrich geodesic_km start_lat start_lon bpp p = Raise e ->
  (exists k, In k ["lat"; "lon"] /\ p !! k = None /\ e = KeyError k) \/
  e = TypeError \/ from_geodesic geodesic_km e.
Proof.
  unfold enrich. intros H.
  apply bind_Raise in H as [H|(plat & _ & H)].
  { apply getitem_Raise in H as [-> H]. left. exists "lat". simpl. auto. }
  apply bind_Raise in H as [H|(plon & _ & H)].
  { apply getitem_Raise in H as [-> H]. left. exists "lon". simpl. auto. }
  apply bind_Raise in H as [H|(t & _ & H)].
  { right. right. by eapply travel_time_min_Raise. }
  apply bind_Raise in H as [H|(sc & _ & H)]; [|discriminate].
  right. left.
  by apply (compute_score_raises_TypeError p bpp t).
Qed.

Lemma enrich_Ok_keys (start_lat start_lon : value) (bpp : Q) (p e : place) :
  enrich geodesic_km start_lat start_lon bpp p = Ok e ->
  is_Some (e !! "lat") /\ is_Some (e !! "lon") /\
  (exists c, e !! "approx_cost_pp" = Some (VInt c)) /\
  (exists q, e !! "score" = Some (VFloat q)) /\
  e !! "name" = p !! "name".
Proof.
  intros H.
  rewrite (enrich_Ok_lookup _ _ _ _ _ _ "name" H) by done.
  rewrite (enrich_Ok_lookup _ _ _ _ _ _ "lat" H),
          (enrich_Ok_lookup _ _ _ _ _ _ "lon" H) by done.
  unfold enrich in H.
  apply bind_Ok in H as (plat & Hlat & H). apply bind_Ok in H as (plon & Hlon & H).
  apply bind_Ok in H as (t & _ & H). apply bind_Ok in H as (sc & _ & H).
  injection H as <-. unfold getitem in Hlat, Hlon.
  destruct (p !! "lat"); [|done]. destruct (p !! "lon"); [|done].
  repeat split; try done.
  - eexists. by rewrite lookup_insert_eq.
  - eexists. by rewrite lookup_insert_ne, lookup_insert_eq.
Qed.

Lemma visit_Raise (people : Z) (st : loop_state) (e' : place) (e : exn) :
  is_Some (e' !! "lat") -> is_Some (e' !! "lon") ->
  (exists c, e' !! "approx_cost_pp" = Some (VInt c)) ->
  visit geodesic_km people st e' = Raise e ->
  (e' !! "name" = None /\ e = KeyError "name") \/
  e = TypeError \/ e = AttributeError \/ from_geodesic geodesic_km e.
Proof.
  intros [plat Hlat] [plon Hlon] [c Hc]. unfold visit, getitem.
  rewrite Hc, Hlat, Hlon. simpl. intros H.
  destruct (py_gt _ _) in H; [discriminate|].
  apply bind_Raise in H as [H|(t & _ & H)].
  { right. right. right. by eapply travel_time_min_Raise. }
  apply bind_Raise in H as [H|(d & _ & H)].
  { apply estimate_visit_duration_Raise in H. tauto. }
  destruct (py_gt _ _) in H; [discriminate|].
  destruct (e' !! "name"); [discriminate|]. simpl in H.
  injection H as <-. by left.
Qed.

(** The exceptions of a call, by where they come from. *)
Lemma generate_Raise_cases (selected_places : list place)
    (start_lat start_lon : value) (total_budget : Q) (people : Z) (e : exn) :
  generate_itinerary_from_selected geodesic_km selected_places
    start_lat start_lon total_budget people = Raise e ->
  (exists p k,
     In p selected_places /\ In k ["lat"; "lon"; "name"] /\
     p !! k = None /\ e = KeyError k) \/
  e = TypeError \/ e = AttributeError \/ from_geodesic geodesic_km e.
Proof.
  unfold generate_itinerary_from_selected. intros H.
  destruct selected_places as [|p0 ps]; [discriminate|].
  set (places := p0 :: ps) in *.
  apply bind_Raise in H as [H|(enriched & Henr & H)].
  { apply mapM_Raise_inv in H as (p & Hp & H).
    apply enrich_Raise in H as [(k & Hk & Hnone & ->)|[->|H]]; [|tauto..].
    left. exists p, k. repeat split; try done. simpl in *. tauto. }
  apply mapM_Ok in Henr.
  assert (forall e', In e' enriched ->
            exists p, In p places /\
              is_Some (e' !! "lat") /\ is_Some (e' !! "lon") /\
              (exists c, e' !! "approx_cost_pp" = Some (VInt c)) /\
              (exists q, e' !! "score" = Some (VFloat q)) /\
              e' !! "name" = p !! "name") as Hkeys.
  { intros e' He'.
    destruct (Forall2_In_r _ _ _ _ Henr He') as (p & Hp & Hpe).
    exists p. split; [done|]. by eapply enrich_Ok_keys. }
  apply bind_Raise in H as [H|(ordered & Hord & H)].
  { unfold list_sort in H.
    apply bind_Raise in H as [H|(keys & _ & H)]; [|discriminate].
    apply mapM_Raise_inv in H as (e' & He' & H).
    destruct (Hkeys e' He') as (_ & _ & _ & _ & _ & [q Hq] & _).
    unfold getitem in H. rewrite Hq in H. discriminate. }
  apply bind_Raise in H as [H|(st & _ & H)]; [|discriminate].
  apply for_each_Raise_inv in H as (st' & e' & He' & H).
  apply list_sort_perm in Hord.
  apply list_elem_of_In in He'. rewrite Hord in He'.
  apply list_elem_of_In in He'.
  destruct (Hkeys e' He') as (p & Hp & Hlat & Hlon & Hc & _ & Hname).
  apply visit_Raise in H as [[Hnone ->]|H]; [|tauto|done..].
  left. exists p, "name". rewrite <- Hname. repeat split; try done.
  simpl. tauto.
Qed.

(** X13. The planner raises nothing of its own but [KeyError] for a place
    without ["lat"], ["lon"] or ["name"], [TypeError] and
    [AttributeError]: any other exception of a call comes out of the
    geodesic. *)
Theorem planner_exceptions (selected_places : list place)
    (start_lat start_lon : value) (total_budget : Q) (people : Z) (e : exn) :
  generate_itinerary_from_selected geodesic_km selected_places
    start_lat start_lon total_budget people = Raise e ->
  (exists p k,
     In p selected_places /\ In k ["lat"; "lon"; "name"] /\
     p !! k = None /\ e = KeyError k) \/
  e = TypeError \/ e = AttributeError \/ from_geodesic geodesic_km e.
Proof.
  intros H.
  destruct (generate_Raise_cases _ _ _ _ _ _ H)
    as [(p & k & Hp & Hk & Hnone & ->)|[->|[->|Hg]]].
  - left. exists p, k. auto.
  - right. left. reflexivity.
  - right. right. left. reflexivity.
  - right. right. right. exact Hg.
Qed.

End Exceptions.

Lemma planner_exceptions_witness :
  (exists p k,
     In p [<["lat" := VNone]> garden] /\ In k ["lat"; "lon"; "name"] /\
     p !! k = None /\ GeopyError = KeyError k) \/
  GeopyError = TypeError \/ GeopyError = AttributeError \/
  from_geodesic grid_km GeopyError.
Proof.
  apply (planner_exceptions grid_km [<["lat" := VNone]> garden]
           start_lat start_lon 2000 2 GeopyError).
  vm_compute. reflexivity.
Defined.

(** * The normalization of [main.py] *)

Lemma for_each_app {S A : Type} (body : S -> A -> result S) (st : S)
    (xs ys : list A) :
  for_each body st (xs ++ ys)
  = for_each body st xs ≫= fun st' => for_each body st' ys.
Proof.
  revert st. induction xs as [|x xs IH]; intros st; simpl; [done|].
  destruct (body st x); simpl; [apply IH | done].
Qed.

Section NormalizationFacts.
Variable float_of_str : string -> result Q.

Lemma normalize_place_None (p : raw_place) :
  normalize_place float_of_str p = Ok None <-> no_latitude p.
Proof.
  unfold normalize_place, no_latitude.
  destruct (raw_location p) as [[o|v]|]; simpl.
  - split.
    + intros H. right. exists o. split; [done|].
      destruct (get o "latitude" VNone); try done;
        repeat (apply bind_Ok in H as (? & _ & H)); discriminate.
    + intros [|(o' & [= <-] & ->)]; done.
  - split; [done|]. by intros [|(o' & ? & _)].
  - split; [by left | done].
Qed.

(** What a kept record looks like. *)
Lemma normalize_place_Some (p : raw_place) (d : place) :
  normalize_place float_of_str p = Ok (Some d) ->
  exists (o : gmap string value) (names : list value) (flat flon : Q),
    default (LocationObject ∅) (raw_location p) = LocationObject o /\
    get o "latitude" VNone <> VNone /\
    py_float float_of_str (get o "latitude" VNone) = Ok flat /\
    py_float float_of_str (get o "longitude" VNone) = Ok flon /\
    category_names (raw_categories p) = Ok names /\
    d = <["photo_url" := VNone]>
        (<["popularity" := get (raw_entries p) "popularity" (VFloat 0.5)]>
        (<["price_tier" := get (raw_entries p) "price" VNone]>
        (<["lon" := VFloat flon]>
        (<["lat" := VFloat flat]>
        (<["categories" := VList names]>
        (<["name" := get (raw_entries p) "name" (VStr "Unknown Place")]>
        (<["fsq_place_id" := get (raw_entries p) "fsq_place_id" VNone]>
           ∅))))))).
Proof.
  unfold normalize_place. intros H.
  destruct (default (LocationObject ∅) (raw_location p)) as [o|v];
    [|discriminate].
  simpl in H. exists o.
  destruct (get o "latitude" VNone) eqn:Elat; try discriminate;
    apply bind_Ok in H as (names & Hnames & H);
    apply bind_Ok in H as (flat & Hflat & H);
    apply bind_Ok in H as (flon & Hflon & H);
    injection H as <-; by exists names, flat, flon.
Qed.

(** The loop keeps, in order, what the body keeps. *)
Lemma normalized_Ok (places_raw : list raw_place) (ps : list place) :
  normalized float_of_str places_raw = Ok ps ->
  Forall (fun d => exists p, In p places_raw /\
                             normalize_place float_of_str p = Ok (Some d)) ps /\
  (length ps <= length places_raw)%nat.
Proof.
  unfold normalized.
  assert (forall acc,
    for_each (fun acc p =>
                r ← normalize_place float_of_str p;
                Ok (match r with Some d => acc ++ [d] | None => acc end))
             acc places_raw = Ok ps ->
    exists more, ps = acc ++ more /\
      Forall (fun d => exists p, In p places_raw /\
                normalize_place float_of_str p = Ok (Some d)) more /\
      (length more <= length places_raw)%nat) as Hgen.
  { induction places_raw as [|p raws IH]; intros acc H; simpl in H.
    - injection H as <-. exists []. rewrite app_nil_r. repeat split; done.
    - apply bind_Ok in H as (acc' & Hp & H).
      apply bind_Ok in Hp as (r & Hr & Hp). injection Hp as <-.
      destruct (IH _ H) as (more & -> & Hmore & Hlen).
      assert (Forall (fun d => exists p0, In p0 (p :: raws) /\
                normalize_place float_of_str p0 = Ok (Some d)) more) as Hmore'.
      { eapply Forall_impl; [exact Hmore|]. simpl.
        intros d (p0 & Hp0 & Hd). exists p0. auto. }
      destruct r as [d|].
      + exists (d :: more). rewrite <- app_assoc. split; [done|]. split.
        * constructor; [|done]. exists p. split; [by left | done].
        * simpl. lia.
      + exists more. repeat split; try done. simpl. lia. }
  intros H. destruct (Hgen [] H) as (more & -> & Hmore & Hlen). done.
Qed.

(** X14. Every place that the normalization hands on has exactly the eight
    keys fsq_place_id, name, categories, lat, lon, price_tier, popularity
    and photo_url; its coordinates are floats, its categories a list and
    its photo [None]; and there are at most as many places as records. *)
Theorem normalized_places_are_complete (places_raw : list raw_place)
    (ps : list place) :
  normalized float_of_str places_raw = Ok ps ->
  Forall (fun d : place =>
            (exists la lo,
               d !! "lat" = Some (VFloat la) /\ d !! "lon" = Some (VFloat lo)) /\
            (exists names, d !! "categories" = Some (VList names)) /\
            d !! "photo_url" = Some VNone /\
            (forall k, is_Some (d !! k) <->
                       In k ["fsq_place_id"; "name"; "categories"; "lat"; "lon";
                             "price_tier"; "popularity"; "photo_url"]))
         ps /\
  (length ps <= length places_raw)%nat.
Proof.
  intros H. apply normalized_Ok in H as [H Hlen]. split; [|done].
  eapply Forall_impl; [exact H|]. simpl. intros d (p & _ & Hd).
  apply normalize_place_Some in Hd
    as (o & names & flat & flon & _ & _ & _ & _ & _ & ->).
  split; [|split; [|split]].
  - exists flat, flon. by simplify_map_eq.
  - exists names. by simplify_map_eq.
  - by simplify_map_eq.
  - intros k. rewrite !lookup_insert_is_Some, lookup_empty. simpl.
    pose proof (@is_Some_None value) as HN. split; [tauto|].
    intros Hk.
    repeat match goal with
           | |- ?s = k \/ _ =>
               destruct (decide (s = k)); [by left | right; split; [done|]]
           end.
    tauto.
Qed.
End NormalizationFacts.

Lemma normalized_places_are_complete_witness :
  exists ps,
    normalized no_float [raw_nowhere; raw_garden] = Ok ps /\
    (length ps <= 2)%nat.
Proof.
  eexists. split; [vm_compute; reflexivity|].
  apply (normalized_places_are_complete no_float [raw_nowhere; raw_garden]).
  vm_compute. reflexivity.
Defined.

Section Skipping.
Variable float_of_str : string -> result Q.

(** X15. A record without latitude is passed over in silence: with it or
    without it in the answer, the normalization gives the same outcome. *)
Theorem record_without_latitude_is_skipped (before after : list raw_place)
    (p : raw_place) :
  no_latitude p ->
  normalized float_of_str (before ++ p :: after)
  = normalized float_of_str (before ++ after).
Proof.
  intros Hp. apply (proj2 (normalize_place_None float_of_str p)) in Hp.
  unfold normalized.
  rewrite !for_each_app. simpl.
  destruct (for_each _ [] before) as [acc|]; simpl; [|done].
  by rewrite Hp.
Qed.

(** X16. A record with a latitude and no longitude is not passed over: it
    makes the whole normalization raise, whatever the other records are. *)
Theorem latitude_without_longitude_raises (places_raw : list raw_place)
    (p : raw_place) (o : gmap string value) :
  In p places_raw ->
  raw_location p = Some (LocationObject o) ->
  get o "latitude" VNone <> VNone ->
  get o "longitude" VNone = VNone ->
  exists e, normalized float_of_str places_raw = Raise e.
Proof.
  intros Hin Hloc Hlat Hlon.
  assert (exists e, normalize_place float_of_str p = Raise e) as [e He].
  { unfold normalize_place. rewrite Hloc. simpl. rewrite Hlon.
    destruct (get o "latitude" VNone) eqn:E; try done;
      (destruct (category_names _); simpl; [|eauto]);
      try (destruct (float_of_str _); simpl); eauto. }
  apply in_split in Hin as (before & after & ->).
  unfold normalized. rewrite for_each_app. simpl.
  destruct (for_each _ [] before) as [acc|e0]; simpl; [|eauto].
  rewrite He. simpl. eauto.
Qed.

(** X17. [safe_get_main_coords] answers either [(None, None)] or a pair
    of floats, and it agrees with the loop of [main.py]: for a record that
    the loop keeps it gives the coordinates of the kept place, and for a
    record that the loop passes over it gives [(None, None)]. *)
Theorem safe_get_main_coords_agrees (p : raw_place) :
  (safe_get_main_coords float_of_str p = (VNone, VNone) \/
   exists la lo, safe_get_main_coords float_of_str p = (VFloat la, VFloat lo)) /\
  (forall d, normalize_place float_of_str p = Ok (Some d) ->
             d !! "lat" = Some (fst (safe_get_main_coords float_of_str p)) /\
             d !! "lon" = Some (snd (safe_get_main_coords float_of_str p))) /\
  (normalize_place float_of_str p = Ok None ->
   safe_get_main_coords float_of_str p = (VNone, VNone)).
Proof.
  split; [|split].
  - unfold safe_get_main_coords.
    destruct (default (LocationObject ∅) (raw_location p)) as [o|v]; simpl;
      [|by left].
    destruct (get o "latitude" VNone) as [| | |s|]; simpl; try (by left).
    + destruct (py_float float_of_str (get o "longitude" VNone)); simpl;
        [right; eauto | by left].
    + destruct (py_float float_of_str (get o "longitude" VNone)); simpl;
        [right; eauto | by left].
    + destruct (float_of_str s); simpl; [|by left].
      destruct (py_float float_of_str (get o "longitude" VNone)); simpl;
        [right; eauto | by left].
  - intros d Hd.
    apply normalize_place_Some in Hd
      as (o & names & flat & flon & Hloc & Hlat & Hflat & Hflon & _ & ->).
    unfold safe_get_main_coords. rewrite Hloc. simpl.
    destruct (get o "latitude" VNone) eqn:E; try done;
      rewrite Hflat; simpl; rewrite Hflon; simpl;
      by rewrite !(lookup_insert_ne _ "photo_url"),
        !(lookup_insert_ne _ "popularity"), !(lookup_insert_ne _ "price_tier"),
        lookup_insert_eq, lookup_insert_ne, lookup_insert_eq.
  - intros Hd. apply (proj1 (normalize_place_None float_of_str p)) in Hd.
    unfold safe_get_main_coords.
    destruct Hd as [->|(o & -> & Hlat)]; simpl; [done|]. by rewrite Hlat.
Qed.

(** X18. The defaults of the planner are out of reach behind the
    normalization: a kept place always has a popularity and a price tier
    entry, and a record of the answer without popularity and without price
    is scored with popularity 0.5, not 0.6, and the cost 400 of the tier
    [None]. *)
Theorem normalized_place_defaults (p : raw_place) (d : place)
    (budget_per_person travel_min : Q) :
  normalize_place float_of_str p = Ok (Some d) ->
  d !! "popularity" = Some (get (raw_entries p) "popularity" (VFloat 0.5)) /\
  d !! "price_tier" = Some (get (raw_entries p) "price" VNone) /\
  (raw_entries p !! "popularity" = None ->
   raw_entries p !! "price" = None ->
   compute_score d budget_per_person travel_min
   = Ok (0.5 * 0.5
         + 0.3 * py_max 0 ((budget_per_person - 400) / py_max 1 budget_per_person)
         - 0.2 * (travel_min / 30), 400%Z)).
Proof.
  intros Hd.
  apply normalize_place_Some in Hd
    as (o & names & flat & flon & _ & _ & _ & _ & _ & ->).
  split; [by simplify_map_eq|]. split; [by simplify_map_eq|].
  intros Hpop Hprice. unfold compute_score, get at 1 2.
  simplify_map_eq. unfold get. rewrite Hpop, Hprice. done.
Qed.
End Skipping.

Lemma record_without_latitude_is_skipped_witness :
  normalized no_float ([raw_garden] ++ raw_nowhere :: [raw_garden])
  = normalized no_float ([raw_garden] ++ [raw_garden]).
Proof.
  apply (record_without_latitude_is_skipped no_float).
  left. reflexivity.
Defined.

Lemma latitude_without_longitude_raises_witness :
  exists e, normalized no_float [raw_garden; raw_half] = Raise e.
Proof.
  apply (latitude_without_longitude_raises no_float [raw_garden; raw_half]
           raw_half (<["latitude" := VFloat 18.53]> ∅)).
  - simpl. auto.
  - reflexivity.
  - discriminate.
  - reflexivity.
Defined.

Lemma normalized_place_defaults_witness :
  exists d,
    normalize_place no_float
      {| raw_entries := ∅;
         raw_location := raw_location raw_garden;
         raw_categories := None |} = Ok (Some d) /\
    d !! "popularity" = Some (VFloat 0.5).
Proof.
  eexists. split; [vm_compute; reflexivity|].
  refine (proj1 (normalized_place_defaults no_float
                   {| raw_entries := ∅;
                      raw_location := raw_location raw_garden;
                      raw_categories := None |} _ 1000 6 _)).
  vm_compute. reflexivity.
Defined.
